(** * awp-exporter: ingestion handler, gauge registry and mirror dispatcher

    A shallow embedding of [main.go] (the version with request mirroring)
    together with the parts of the Go standard library the handler's
    behaviour is decided by: [strings], [path], [net/url] and [fmt]'s [%d].

    Go strings are byte sequences; they are embedded as [string], whose
    characters are the 256 byte values.  Go's [int] is embedded as [Z]; the
    only arithmetic on it in this program is a comparison with a constant. *)

From Stdlib Require Import ZArith NArith Ascii DecimalString.
From stdpp Require Import gmap strings list fin_maps sorting.

Local Open Scope char_scope.

(* ===================================================================== *)
(** * Bytes *)
(* ===================================================================== *)

(** [lo <= c && c <= hi] on bytes. *)
Definition byte_between (lo hi c : ascii) : bool :=
  ((N_of_ascii lo <=? N_of_ascii c) && (N_of_ascii c <=? N_of_ascii hi))%N.

Definition byte_eqb (a b : ascii) : bool := Ascii.eqb a b.

(** [utf8.RuneSelf = 0x80]: bytes below it are single-byte runes. *)
Definition isASCIIByte (c : ascii) : bool := (N_of_ascii c <? 128)%N.

Local Close Scope char_scope.

(* ===================================================================== *)
(** * Package [strings] *)
(* ===================================================================== *)

Fixpoint str_take (n : nat) (s : string) : string :=
  match n, s with
  | S n', String c s' => String c (str_take n' s')
  | _, _ => ""
  end.

Fixpoint str_drop (n : nat) (s : string) : string :=
  match n, s with
  | S n', String _ s' => str_drop n' s'
  | _, _ => s
  end.

(** [strings.HasPrefix]. *)
Definition strings_HasPrefix (s pre : string) : bool := String.prefix pre s.

(** [strings.Index]: position of the first occurrence of [sep] in [s]. *)
Fixpoint strings_Index (s sep : string) : option nat :=
  if strings_HasPrefix s sep then Some 0
  else match s with
       | "" => None
       | String _ s' => S <$> strings_Index s' sep
       end.

(** [strings.Contains]. *)
Definition strings_Contains (s sub : string) : bool :=
  bool_decide (is_Some (strings_Index s sub)).

(** [strings.Cut]: [s[:i], s[i+len(sep):], true] at the first occurrence of
    [sep], and [s, "", false] when there is none. *)
Definition strings_Cut (s sep : string) : string * string * bool :=
  match strings_Index s sep with
  | Some i => (str_take i s, str_drop (i + String.length sep) s, true)
  | None => (s, "", false)
  end.

(** [strings.HasSuffix]. *)
Definition strings_HasSuffix (s suf : string) : bool :=
  (String.length suf <=? String.length s) &&
  String.eqb (str_drop (String.length s - String.length suf) s) suf.

(** [strings.TrimSuffix]: removes one occurrence of the suffix, if present. *)
Definition strings_TrimSuffix (s suf : string) : string :=
  if strings_HasSuffix s suf
  then str_take (String.length s - String.length suf) s
  else s.

(** [strings.LastIndexByte]. *)
Fixpoint strings_LastIndexByte (s : string) (c : ascii) : option nat :=
  match s with
  | "" => None
  | String a s' =>
      match strings_LastIndexByte s' c with
      | Some i => Some (S i)
      | None => if byte_eqb a c then Some 0 else None
      end
  end.

Fixpoint str_map (f : ascii → ascii) (s : string) : string :=
  match s with
  | "" => ""
  | String c s' => String (f c) (str_map f s')
  end.

Fixpoint str_forallb (p : ascii → bool) (s : string) : bool :=
  match s with
  | "" => true
  | String c s' => p c && str_forallb p s'
  end.

(** The byte [c] does not occur in [s]. *)
Definition str_no (c : ascii) (s : string) : bool :=
  str_forallb (λ x, negb (byte_eqb x c)) s.

(** The ASCII branch of [strings.ToUpper]: [c -= 'a' - 'A'] on ['a'..'z']. *)
Definition upperByte (c : ascii) : ascii :=
  if byte_between "a" "z" c then ascii_of_N (N_of_ascii c - 32) else c.

(** [strings.ToUpper].  For a string of ASCII bytes the library maps
    ['a'..'z'] to ['A'..'Z'] byte by byte; any other string goes through
    [strings.Map(unicode.ToUpper, s)], whose Unicode tables are outside this
    development and which is therefore taken as the argument [unicodeUpper]. *)
Definition strings_ToUpper (unicodeUpper : string → string) (s : string) : string :=
  if str_forallb isASCIIByte s then str_map upperByte s else unicodeUpper s.

(* ===================================================================== *)
(** * Package [path] *)
(* ===================================================================== *)

(** The loop [for len(path) > 0 && path[len(path)-1] == '/'] of [path.Base]. *)
Fixpoint stripTrailingSlashes (s : string) : string :=
  match s with
  | "" => ""
  | String c s' =>
      let t := stripTrailingSlashes s' in
      if byte_eqb c "/" && String.eqb t "" then "" else String c t
  end.

(** [path.Base]: the last element of the path. *)
Definition path_Base (p : string) : string :=
  if String.eqb p "" then "."
  else
    let p1 := stripTrailingSlashes p in
    let p2 := match strings_LastIndexByte p1 "/" with
              | Some i => str_drop (S i) p1
              | None => p1
              end in
    if String.eqb p2 "" then "/" else p2.

(* ===================================================================== *)
(** * Package [fmt]: the verb [%d] *)
(* ===================================================================== *)

Definition fmt_d (z : Z) : string := NilZero.string_of_int (Z.to_int z).

(* ===================================================================== *)
(** * Package [net/url] *)
(* ===================================================================== *)

Inductive encoding :=
  | encodePath | encodePathSegment | encodeHost | encodeZone
  | encodeUserPassword | encodeQueryComponent | encodeFragment.

Global Instance encoding_eq_dec : EqDecision encoding.
Proof. solve_decision. Defined.

(** Errors of [unescape] and [parseQuery]. *)
Inductive url_error :=
  | EscapeError (s : string)
  | InvalidHostError (s : string)
  | InvalidSemicolon.

Definition ishex (c : ascii) : bool :=
  byte_between "0" "9" c || byte_between "a" "f" c || byte_between "A" "F" c.

(** [unhex]; the library panics on a byte that is no hex digit, which
    [unescape] rules out before it calls [unhex]. *)
Definition unhex (c : ascii) : N :=
  if byte_between "0" "9" c then N_of_ascii c - N_of_ascii "0"
  else if byte_between "a" "f" c then N_of_ascii c - N_of_ascii "a" + 10
  else if byte_between "A" "F" c then N_of_ascii c - N_of_ascii "A" + 10
  else 0.

(** [unhex(a)<<4 | unhex(b)]. *)
Definition unhex2 (a b : ascii) : ascii :=
  ascii_of_N (N.lor (N.shiftl (unhex a) 4) (unhex b)).

Definition byte_in (c : ascii) (l : list ascii) : bool :=
  existsb (byte_eqb c) l.

Definition shouldEscape (c : ascii) (mode : encoding) : bool :=
  if byte_between "a" "z" c || byte_between "A" "Z" c || byte_between "0" "9" c
  then false
  else if bool_decide (mode = encodeHost ∨ mode = encodeZone) &&
          byte_in c ["!"; "$"; "&"; "'"; "("; ")"; "*"; "+"; ","; ";"; "=";
                     ":"; "["; "]"; "<"; ">"; "034"]%char
  then false
  else if byte_in c ["-"; "_"; "."; "~"]%char then false
  else if byte_in c ["$"; "&"; "+"; ","; "/"; ":"; ";"; "="; "?"; "@"]%char
  then match mode with
       | encodePath => byte_eqb c "?"
       | encodePathSegment => byte_in c ["/"; ";"; ","; "?"]%char
       | encodeUserPassword => byte_in c ["@"; "/"; "?"; ":"]%char
       | encodeQueryComponent => true
       | encodeFragment => false
       | encodeHost | encodeZone => true
       end
  else if bool_decide (mode = encodeFragment) &&
          byte_in c ["!"; "("; ")"; "*"]%char
  then false
  else true.

(** [upperhex[n]] for [n < 16]. *)
Definition upperhex (n : N) : ascii :=
  if (n <? 10)%N then ascii_of_N (N_of_ascii "0" + n)
  else ascii_of_N (N_of_ascii "A" + (n - 10)).

(** [escape]: a space becomes ['+'] in a query component, a byte that
    [shouldEscape] becomes [%XY], any other byte is kept. *)
Fixpoint escape (s : string) (mode : encoding) : string :=
  match s with
  | "" => ""
  | String c s' =>
      if byte_eqb c " " && bool_decide (mode = encodeQueryComponent)
      then String "+" (escape s' mode)
      else if shouldEscape c mode
      then String "%" (String (upperhex (N.shiftr (N_of_ascii c) 4))
                      (String (upperhex (N.land (N_of_ascii c) 15))
                         (escape s' mode)))
      else String c (escape s' mode)
  end.

Definition url_QueryEscape (s : string) : string := escape s encodeQueryComponent.

(** First loop of [unescape]: the well-formedness check.  [Some e] is the
    error the library returns, [None] means the string passes. *)
Fixpoint unescape_check (s : string) (mode : encoding) : option url_error :=
  match s with
  | "" => None
  | String "%" rest =>
      match rest with
      | String a (String b rest') =>
          if negb (ishex a) || negb (ishex b)
          then Some (EscapeError (str_take 3 s))
          else if bool_decide (mode = encodeHost) && (unhex a <? 8)%N &&
                  negb (String.eqb (str_take 3 s) "%25")
          then Some (EscapeError (str_take 3 s))
          else if bool_decide (mode = encodeZone) &&
                  negb (String.eqb (str_take 3 s) "%25") &&
                  negb (byte_eqb (unhex2 a b) " ") &&
                  shouldEscape (unhex2 a b) encodeHost
          then Some (EscapeError (str_take 3 s))
          else unescape_check rest' mode
      | _ => Some (EscapeError (str_take 3 s))
      end
  | String c rest =>
      if negb (byte_eqb c "+") &&
         bool_decide (mode = encodeHost ∨ mode = encodeZone) &&
         isASCIIByte c && shouldEscape c encodeHost
      then Some (InvalidHostError (String c ""))
      else unescape_check rest mode
  end.

(** Second loop of [unescape]: the conversion, on a string that passed the
    check. *)
Fixpoint unescape_convert (s : string) (mode : encoding) : string :=
  match s with
  | "" => ""
  | String "%" (String a (String b rest')) =>
      String (unhex2 a b) (unescape_convert rest' mode)
  | String "+" rest =>
      String (if bool_decide (mode = encodeQueryComponent) then " " else "+")%char
             (unescape_convert rest mode)
  | String c rest => String c (unescape_convert rest mode)
  end.

(** [unescape].  The library returns [s] itself when it holds neither ['%']
    nor a ['+'] to convert; the conversion loop is the identity on such a
    string, so that shortcut is not a separate case here. *)
Definition unescape (s : string) (mode : encoding) : string + url_error :=
  match unescape_check s mode with
  | Some e => inr e
  | None => inl (unescape_convert s mode)
  end.

Definition url_QueryUnescape (s : string) : string + url_error :=
  unescape s encodeQueryComponent.

(** [url.Values] is [map[string][]string]. *)
Abbreviation Values := (gmap string (list string)).

(** [m[key] = append(m[key], value)]. *)
Definition values_append (m : Values) (key value : string) : Values :=
  <[key := default [] (m !! key) ++ [value]]> m.

(** [if err == nil { err = err1 }]. *)
Definition first_error (err : option url_error) (err1 : url_error) : option url_error :=
  match err with
  | None => Some err1
  | Some _ => err
  end.

(** One iteration of the loop of [parseQuery], on the segment [key] that
    was cut off the query. *)
Definition parseQuery_step (m : Values) (err : option url_error) (key : string)
  : Values * option url_error :=
  if strings_Contains key ";" then (m, Some InvalidSemicolon)
  else if String.eqb key "" then (m, err)
  else
    let '(key, value, _) := strings_Cut key "=" in
    match url_QueryUnescape key with
    | inr err1 => (m, first_error err err1)
    | inl key =>
        match url_QueryUnescape value with
        | inr err1 => (m, first_error err err1)
        | inl value => (values_append m key value, err)
        end
    end.

(** [parseQuery]: the loop [for query != ""], which cuts one segment off
    the query at each turn.  The query gets shorter at every turn, so
    [String.length query] turns are enough: [parseQuery_eq] below shows that
    [parseQuery] satisfies the equation of the loop on every query. *)
Fixpoint parseQuery_loop (fuel : nat) (m : Values) (err : option url_error)
    (query : string) : Values * option url_error :=
  match fuel with
  | O => (m, err)
  | S fuel' =>
      if String.eqb query "" then (m, err)
      else
        let '(key, query', _) := strings_Cut query "&" in
        let '(m', err') := parseQuery_step m err key in
        parseQuery_loop fuel' m' err' query'
  end.

Definition parseQuery (m : Values) (err : option url_error) (query : string)
  : Values * option url_error :=
  parseQuery_loop (String.length query) m err query.

(** [url.ParseQuery]: the values decoded, and the last semicolon error or
    else the first escape error met, if any. *)
Definition url_ParseQuery (query : string) : Values * option url_error :=
  parseQuery ∅ None query.

(** The loop body of [Values.Encode] for one value of a key. *)
Definition encode_value (keyEscaped : string) (buf : string) (v : string) : string :=
  (if (0 <? String.length buf)%nat then buf +:+ "&" else buf)
    +:+ keyEscaped +:+ "=" +:+ url_QueryEscape v.

(** [slices.Sort(keys)]: the keys in the byte-wise order of Go strings. *)
Definition sorted_keys (v : Values) : list string :=
  merge_sort String.le (map_to_list v).*1.

(** [Values.Encode]: ["bar=baz&foo=quux"], sorted by key. *)
Definition url_Values_Encode (v : Values) : string :=
  foldl (λ buf k, foldl (encode_value (url_QueryEscape k)) buf (default [] (v !! k)))
        "" (sorted_keys v).

(** The fields of [url.URL] this program sets or reads; [Opaque], [User],
    [RawPath], [OmitHost] and [Fragment] keep their zero value in every URL
    it builds. *)
Record URL := mkURL {
  Scheme : string;
  Host : string;
  Path : string;
  ForceQuery : bool;
  RawQuery : string;
}.

(** [URL.EscapedPath] with [RawPath == ""]. *)
Definition url_EscapedPath (u : URL) : string :=
  if String.eqb (Path u) "*" then "*" else escape (Path u) encodePath.

(** [URL.String] with [Opaque], [User], [OmitHost] and [Fragment] zero. *)
Definition url_String (u : URL) : string :=
  let buf := if String.eqb (Scheme u) "" then "" else Scheme u +:+ ":" in
  let buf :=
    if negb (String.eqb (Scheme u) "") || negb (String.eqb (Host u) "") then
      let buf := if negb (String.eqb (Host u) "") || negb (String.eqb (Path u) "")
                 then buf +:+ "//" else buf in
      if negb (String.eqb (Host u) "") then buf +:+ escape (Host u) encodeHost else buf
    else buf in
  let path := url_EscapedPath u in
  let buf :=
    if negb (String.eqb path "") && negb (strings_HasPrefix path "/") &&
       negb (String.eqb (Host u) "")
    then buf +:+ "/" else buf in
  let buf :=
    if String.eqb buf "" && strings_Contains (strings_Cut path "/").1.1 ":"
    then buf +:+ "./" else buf in
  let buf := buf +:+ path in
  if ForceQuery u || negb (String.eqb (RawQuery u) "")
  then buf +:+ "?" +:+ RawQuery u
  else buf.

(** [stringContainsCTLByte]. *)
Fixpoint stringContainsCTLByte (s : string) : bool :=
  match s with
  | "" => false
  | String c s' =>
      (N_of_ascii c <? 32)%N || byte_eqb c "127" || stringContainsCTLByte s'
  end.

(** [url.ParseRequestURI] on an origin-form request target (one that starts
    with ['/'], which is what a reporting device sends): the query is what
    follows the first ['?'], the path is what precedes it, percent-decoded.
    [None] is a parse error, on which [net/http] answers 400 itself and the
    handler is not called.  Targets of another form are not described by this
    definition, which answers [None] for them too. *)
Definition url_ParseRequestURI (rawURL : string) : option URL :=
  if stringContainsCTLByte rawURL then None
  else if negb (strings_HasPrefix rawURL "/") then None
  else
    let '(rest, rawQuery, force) :=
      if strings_HasSuffix rawURL "?" &&
         bool_decide (strings_Index (str_take (String.length rawURL - 1) rawURL) "?" = None)
      then (str_take (String.length rawURL - 1) rawURL, "", true)
      else let '(r, q, _) := strings_Cut rawURL "?" in (r, q, false) in
    match unescape rest encodePath with
    | inr _ => None
    | inl p => Some {| Scheme := ""; Host := ""; Path := p;
                       ForceQuery := force; RawQuery := rawQuery |}
    end.

(* ===================================================================== *)
(** * Package [unicode/utf8] *)
(* ===================================================================== *)

(** [utf8.ValidString]: the byte sequence is a concatenation of well-formed
    UTF-8 encodings (no overlong form, no surrogate, nothing above U+10FFFF). *)
Fixpoint utf8_ValidString (s : string) : bool :=
  let cont := byte_between "128" "191" in
  match s with
  | "" => true
  | String c0 r0 =>
      if isASCIIByte c0 then utf8_ValidString r0
      else match r0 with
      | String c1 r1 =>
          if byte_between "194" "223" c0 then cont c1 && utf8_ValidString r1
          else match r1 with
          | String c2 r2 =>
              if byte_between "224" "239" c0 then
                (if byte_eqb c0 "224" then byte_between "160" "191" c1
                 else if byte_eqb c0 "237" then byte_between "128" "159" c1
                 else cont c1)
                && cont c2 && utf8_ValidString r2
              else match r2 with
              | String c3 r3 =>
                  byte_between "240" "244" c0 &&
                  (if byte_eqb c0 "240" then byte_between "144" "191" c1
                   else if byte_eqb c0 "244" then byte_between "128" "143" c1
                   else cont c1)
                  && cont c2 && cont c3 && utf8_ValidString r3
              | "" => false
              end
          | "" => false
          end
      | "" => false
      end
  end.

(* ===================================================================== *)
(** * What the embedding takes from its environment *)
(* ===================================================================== *)

(** The program's dependencies whose behaviour is not fixed by [main.go] and
    is not modelled above:
    - [float64] and [strconv.ParseFloat(s, 64)] ([Some f] when [err == nil]);
    - [strings.Map(unicode.ToUpper, s)] on strings that are not ASCII;
    - the metric-name check of the Prometheus client, which depends on the
      name-validation scheme of the library version in use;
    - the error, if any, with which [http.NewRequest] refuses a URL string;
    - the order in which [range] visits a Go map, which the language leaves
      unspecified: any enumeration of the map's entries. *)
Class Platform := {
  float64 : Type;
  strconv_ParseFloat : string → option float64;
  unicode_ToUpper : string → string;
  IsValidMetricName : string → bool;
  http_NewRequest_err : string → option string;
  range_order : Values → list (string * list string);
  range_order_perm : ∀ m : Values, range_order m ≡ₚ map_to_list m;
}.

(** The legacy scheme of [prometheus/common]:
    [[a-zA-Z_:][a-zA-Z0-9_:]*]. *)
Definition isValidLegacyRune (first : bool) (b : ascii) : bool :=
  byte_between "a" "z" b || byte_between "A" "Z" b || byte_eqb b "_" ||
  byte_eqb b ":" || (byte_between "0" "9" b && negb first).

Definition IsValidLegacyMetricName (n : string) : bool :=
  match n with
  | "" => false
  | String c n' => isValidLegacyRune true c && str_forallb (isValidLegacyRune false) n'
  end.

(** The UTF-8 scheme of [prometheus/common]: any non-empty valid UTF-8. *)
Definition IsValidUTF8MetricName (n : string) : bool :=
  negb (String.eqb n "") && utf8_ValidString n.

(* ===================================================================== *)
(** * [main.go]: flags, logging, state *)
(* ===================================================================== *)

(** The command-line flags, read through pointers after [flag.Parse]. *)
Record Flags := mkFlags {
  port : Z;
  verbose : bool;
  mirrorHost : string;
  mirrorPort : Z;
  mirrorPath : string;
  mirrorHTTPS : bool;
}.

(** The defaults given to [flag.Int], [flag.Bool] and [flag.String]. *)
Definition defaultFlags : Flags :=
  {| port := 6255; verbose := false; mirrorHost := ""; mirrorPort := 8000;
     mirrorPath := "/data/report"; mirrorHTTPS := false |}.

Inductive slog_Level := LevelDebug | LevelInfo | LevelWarn.

Inductive slog_Value :=
  | StringValue (s : string)
  | IntValue (z : Z)
  | UrlErrorValue (e : url_error)
  | ErrorValue (e : string).

(** One call of [slog.Debug], [slog.Info] or [slog.Warn]. *)
Record slog_Record := mkRecord {
  rec_level : slog_Level;
  rec_msg : string;
  rec_attrs : list (string * slog_Value);
}.

(** Parameters we never turn into metrics. *)
Definition ignoredKeys : list string :=
  ["PASSKEY"; "MAC"; "STATIONTYPE"; "SOFTWARETYPE"; "DATEUTC"; "TZ"].

(** [slices.Contains]. *)
Definition slices_Contains (l : list string) (x : string) : bool :=
  bool_decide (x ∈ l).

(** A [*prometheus.GaugeVec] is an address in the heap of collectors. *)
Abbreviation loc := positive.

Section Exporter.
Context `{Platform}.

(** A [prometheus.GaugeVec] with the one label [station]: its descriptor
    and, for each label value seen, the current value of the child gauge. *)
Record GaugeVec := mkGaugeVec {
  gv_Name : string;
  gv_Help : string;
  gv_labelNames : list string;
  gv_metrics : gmap string float64;
}.

(** The mutable state of the process:
    - [heap]: the [GaugeVec] objects allocated so far;
    - [gaugeMap]: the map [gaugeMap.m], from sensor name to [*GaugeVec];
    - [registered]: the collectors of [prometheus.DefaultRegisterer], by
      fully-qualified metric name ([init] unregisters the two collectors the
      library installs, so it starts empty);
    - [logged]: the calls made to [slog], oldest first.
    [gaugeMap] and [registered] hold the same pointers: a [Set] through a
    handle is seen by the exposition endpoint. *)
Record State := mkState {
  heap : gmap loc GaugeVec;
  gaugeMap : gmap string loc;
  registered : gmap string loc;
  logged : list slog_Record;
}.

Definition initState : State :=
  {| heap := ∅; gaugeMap := ∅; registered := ∅; logged := [] |}.

Definition set_heap (f : gmap loc GaugeVec → gmap loc GaugeVec) (st : State) : State :=
  {| heap := f (heap st); gaugeMap := gaugeMap st;
     registered := registered st; logged := logged st |}.
Definition set_gaugeMap (f : gmap string loc → gmap string loc) (st : State) : State :=
  {| heap := heap st; gaugeMap := f (gaugeMap st);
     registered := registered st; logged := logged st |}.
Definition set_registered (f : gmap string loc → gmap string loc) (st : State) : State :=
  {| heap := heap st; gaugeMap := gaugeMap st;
     registered := f (registered st); logged := logged st |}.
Definition slog_log (lvl : slog_Level) (msg : string)
    (attrs : list (string * slog_Value)) (st : State) : State :=
  {| heap := heap st; gaugeMap := gaugeMap st; registered := registered st;
     logged := logged st ++ [mkRecord lvl msg attrs] |}.

(** A call either returns a value or panics; both leave a state behind. *)
Inductive result (A : Type) :=
  | Returned (a : A) (st : State)
  | Panicked (msg : string) (st : State).
Global Arguments Returned {A} a st.
Global Arguments Panicked {A} msg st.

Definition result_state {A} (r : result A) : State :=
  match r with
  | Returned _ st => st
  | Panicked _ st => st
  end.

Definition has_returned {A} (r : result A) : bool :=
  match r with
  | Returned _ _ => true
  | Panicked _ _ => false
  end.

Definition M (A : Type) : Type := State → result A.

Definition ret {A} (a : A) : M A := λ st, Returned a st.
Definition panic {A} (msg : string) : M A := λ st, Panicked msg st.
Definition bind {A B} (m : M A) (k : A → M B) : M B := λ st,
  match m st with
  | Returned a st' => k a st'
  | Panicked msg st' => Panicked msg st'
  end.
Definition modify (f : State → State) : M unit := λ st, Returned tt (f st).

Global Instance M_ret : MRet M := @ret.
Global Instance M_bind : MBind M := λ A B k m, bind m k.

(* ===================================================================== *)
(** * The Prometheus client *)
(* ===================================================================== *)

(** [prometheus.NewGaugeVec]: a new object at an address not in use. *)
Definition NewGaugeVec (name help : string) (labelNames : list string) : M loc := λ st,
  let g := fresh (dom (heap st)) in
  Returned g (set_heap <[g := mkGaugeVec name help labelNames ∅]> st).

(** [prometheus.MustRegister]: [Register] refuses a collector whose
    descriptor is invalid (here: a metric name the library rejects) or whose
    fully-qualified name is already registered, and [MustRegister] panics
    on that error. *)
Definition MustRegister (g : loc) : M unit := λ st,
  match heap st !! g with
  | None => Panicked "invalid memory address or nil pointer dereference" st
  | Some vec =>
      if negb (IsValidMetricName (gv_Name vec))
      then Panicked "descriptor is invalid: not a valid metric name" st
      else if bool_decide (is_Some (registered st !! gv_Name vec))
      then Panicked "duplicate metrics collector registration attempted" st
      else Returned tt (set_registered <[gv_Name vec := g]> st)
  end.

(** [g.WithLabelValues(lv).Set(f)].  [WithLabelValues] panics when the
    label value is not valid UTF-8; otherwise it finds or creates the child
    gauge for [lv], whose value [Set] then replaces. *)
Definition WithLabelValues_Set (g : loc) (lv : string) (f : float64) : M unit := λ st,
  match heap st !! g with
  | None => Panicked "invalid memory address or nil pointer dereference" st
  | Some vec =>
      if negb (utf8_ValidString lv)
      then Panicked "label value is not valid UTF-8" st
      else Returned tt
             (set_heap <[g := mkGaugeVec (gv_Name vec) (gv_Help vec) (gv_labelNames vec)
                                (<[lv := f]> (gv_metrics vec))]> st)
  end.

(* ===================================================================== *)
(** * [getGauge] *)
(* ===================================================================== *)

(** [getGauge].  The body runs between [gaugeMap.Lock()] and the deferred
    [gaugeMap.Unlock()], so no other access to [gaugeMap.m] interleaves with
    it: it is one atomic step on the state. *)
Definition getGauge (field : string) : M loc := λ st,
  match gaugeMap st !! field with
  | Some g => Returned g st
  | None =>
      (g ← NewGaugeVec ("awp_" +:+ field) ("AWP sensor value for " +:+ field) ["station"];
       MustRegister g;;
       modify (set_gaugeMap <[field := g]>);;
       modify (slog_log LevelDebug "created GaugeVec"
                 [("metric", StringValue ("awp_" +:+ field))]);;
       mret g) st
  end.

(* ===================================================================== *)
(** * [reportHandler] *)
(* ===================================================================== *)

(** What a handler reads of [*http.Request]. *)
Record Request := mkRequest {
  req_URL : URL;
  RemoteAddr : string;
}.

(** What [net/http] keeps of the handler's calls on [http.ResponseWriter]:
    the status of the first [WriteHeader], and the bytes given to [Write]. *)
Record ResponseWriter := mkResponseWriter {
  wroteHeader : bool;
  rw_status : Z;
  rw_body : string;
}.

(** The writer a handler is called with. *)
Definition newResponse : ResponseWriter :=
  {| wroteHeader := false; rw_status := 0; rw_body := "" |}.

(** [w.WriteHeader(code)]: only the first call sets the status. *)
Definition WriteHeader (w : ResponseWriter) (code : Z) : ResponseWriter :=
  if wroteHeader w then w
  else {| wroteHeader := true; rw_status := code; rw_body := rw_body w |}.

Definition http_StatusNoContent : Z := 204.

(** A goroutine started with [go mirrorRequest(originalURL, vals, station)]:
    the arguments it was started with. *)
Record MirrorCall := mkMirrorCall {
  mc_originalURL : URL;
  mc_vals : Values;
  mc_station : string;
}.

(** The decoding steps of [reportHandler]: the values, the station and the
    error of [url.ParseQuery], from the standard query when the request has
    one and from the path cut at its first ['&'] otherwise. *)
Definition decodeReport (r : Request) : Values * string * option url_error :=
  if negb (String.eqb (RawQuery (req_URL r)) "") then
    let '(vals, err) := url_ParseQuery (RawQuery (req_URL r)) in
    (vals, path_Base (Path (req_URL r)), err)
  else
    let '(urlPath, queryParams, _) := strings_Cut (Path (req_URL r)) "&" in
    let awpStation := path_Base urlPath in
    let '(vals, err) := url_ParseQuery queryParams in
    (vals, awpStation, err).

(** The body of [for k, vv := range vals], on the entries in the order in
    which [range] yields them. *)
Fixpoint reportHandler_loop (awpStation : string) (kvs : list (string * list string))
  : M unit :=
  match kvs with
  | [] => mret tt
  | (k, vv) :: rest =>
      if slices_Contains ignoredKeys (strings_ToUpper unicode_ToUpper k)
      then reportHandler_loop awpStation rest
      else
        match vv with
        | [] => panic "index out of range [0] with length 0"
        | v0 :: _ =>
            match strconv_ParseFloat v0 with
            | Some f =>
                g ← getGauge k;
                WithLabelValues_Set g awpStation f;;
                reportHandler_loop awpStation rest
            | None => reportHandler_loop awpStation rest
            end
        end
  end.

(** What a call of [reportHandler] leaves behind: the response writer, the
    goroutines it started and the outcome of the call on the process state. *)
Record Handled := mkHandled {
  h_response : ResponseWriter;
  h_spawned : list MirrorCall;
  h_result : result unit;
}.

(** The two calls to [slog] that follow the decoding. *)
Definition log_received (awpStation : string) (r : Request) (err : option url_error)
    (st : State) : State :=
  let st := slog_log LevelDebug "AWP data received"
              [("station", StringValue awpStation);
               ("remote", StringValue (RemoteAddr r))] st in
  match err with
  | Some e =>
      slog_log LevelWarn
        "Failed to parse some query parameters. Continuing with successfully parsed parameters..."
        [("station", StringValue awpStation); ("error", UrlErrorValue e)] st
  | None => st
  end.

Definition reportHandler (w : ResponseWriter) (r : Request) (st : State) : Handled :=
  let w := WriteHeader w http_StatusNoContent in
  let '(vals, awpStation, err) := decodeReport r in
  let st := log_received awpStation r err st in
  {| h_response := w;
     h_spawned := [mkMirrorCall (req_URL r) vals awpStation];
     h_result := reportHandler_loop awpStation (range_order vals) st |}.


(* ===================================================================== *)
(** * [mirrorRequest] *)
(* ===================================================================== *)

(** The request handed to [mirrorClient.Do]. *)
Record OutboundRequest := mkOutbound {
  out_method : string;
  out_url : string;
  out_header : list (string * string);
}.

(** What [mirrorClient.Do] returns: an error (no connection, or the client's
    timeout of ten seconds), or a response with its status code. *)
Inductive DoResult :=
  | DoError (e : string)
  | DoResponse (StatusCode : Z).

(** What a run of [mirrorRequest] does: the request it sent, if any, and
    its calls to [slog]. *)
Record Mirrored := mkMirrored {
  m_sent : option OutboundRequest;
  m_logged : list slog_Record;
}.

(** The scheme and port chosen by [mirrorRequest]. *)
Definition mirrorSchemePort (flags : Flags) : string * Z :=
  let scheme := "http" in
  let port := mirrorPort flags in
  if mirrorHTTPS flags then
    (* If port is still the default 80, change it to 443 for HTTPS *)
    ("https", if (port =? 80)%Z then 443%Z else port)
  else (scheme, port).

(** The [url.URL] built by [mirrorRequest]. *)
Definition mirrorURL (flags : Flags) (vals : Values) : URL :=
  let '(scheme, port) := mirrorSchemePort flags in
  {| Scheme := scheme;
     Host := mirrorHost flags +:+ ":" +:+ fmt_d port;
     Path := strings_TrimSuffix (mirrorPath flags) "/";
     ForceQuery := false;
     RawQuery := url_Values_Encode vals |}.

Definition mirrorRequest (flags : Flags) (Do : OutboundRequest → DoResult)
    (originalURL : URL) (vals : Values) (station : string) : Mirrored :=
  if String.eqb (mirrorHost flags) "" then
    {| m_sent := None; m_logged := [] |}
  else
    let u := mirrorURL flags vals in
    match http_NewRequest_err (url_String u) with
    | Some e =>
      {| m_sent := None;
         m_logged := [mkRecord LevelWarn "Failed to create mirror request"
                        [("station", StringValue station);
                         ("url", StringValue (url_String u));
                         ("error", ErrorValue e)]] |}
    | None =>
      let req := {| out_method := "GET"; out_url := url_String u;
                    out_header := [("User-Agent", "awp-exporter-mirror/1.0")] |} in
      match Do req with
      | DoError e =>
          {| m_sent := Some req;
             m_logged := [mkRecord LevelWarn "Failed to send mirror request"
                            [("station", StringValue station);
                             ("url", StringValue (url_String u));
                             ("error", ErrorValue e)]] |}
      | DoResponse code =>
          {| m_sent := Some req;
             m_logged :=
               [if (400 <=? code)%Z then
                  mkRecord LevelWarn "Mirror request returned error status"
                    [("station", StringValue station);
                     ("url", StringValue (url_String u));
                     ("status", IntValue code)]
                else
                  mkRecord LevelDebug "Mirror request successful"
                    [("station", StringValue station);
                     ("url", StringValue (url_String u));
                     ("status", IntValue code)]] |}
      end
    end.

(** Runs a goroutine started by the handler. *)
Definition run_mirror (flags : Flags) (Do : OutboundRequest → DoResult)
    (c : MirrorCall) : Mirrored :=
  mirrorRequest flags Do (mc_originalURL c) (mc_vals c) (mc_station c).

(* ===================================================================== *)
(** * [reportHandler] before request mirroring *)
(* ===================================================================== *)

(** The [reportHandler] of the first [main.go] of the repository, from
    before the standard-query branch and the mirror were added: the path is
    always cut at its first ['&'], the query component of the URL is not
    read, and no goroutine is started.  [getGauge] and the loop are the same
    in both versions. *)
Definition reportHandler_old (w : ResponseWriter) (r : Request) (st : State) : Handled :=
  let w := WriteHeader w http_StatusNoContent in
  let '(urlPath, queryParams, _) := strings_Cut (Path (req_URL r)) "&" in
  let awpStation := path_Base urlPath in
  let st := slog_log LevelDebug "AWP data recieved"
              [("station", StringValue awpStation);
               ("remote", StringValue (RemoteAddr r))] st in
  let '(vals, err) := url_ParseQuery queryParams in
  let st :=
    match err with
    | Some e =>
        slog_log LevelWarn
          "Failed to parse some query parameters. Continuing with successfully parsed parameters..."
          [("station", StringValue awpStation); ("error", UrlErrorValue e)] st
    | None => st
    end in
  {| h_response := w;
     h_spawned := [];
     h_result := reportHandler_loop awpStation (range_order vals) st |}.

End Exporter.

(* ===================================================================== *)
(** * [initLogger] and [main] *)
(* ===================================================================== *)

(** [initLogger]: the level given to the JSON handler of the default logger. *)
Definition initLogger (flags : Flags) : slog_Level :=
  if verbose flags then LevelDebug else LevelInfo.

(** The integer values of [slog.LevelDebug], [slog.LevelInfo] and
    [slog.LevelWarn]. *)
Definition slog_Level_value (l : slog_Level) : Z :=
  match l with
  | LevelDebug => -4
  | LevelInfo => 0
  | LevelWarn => 4
  end.

(** [Handler.Enabled]: a record is written when its level is not below the
    level of the handler. *)
Definition slog_Enabled (minLevel l : slog_Level) : bool :=
  (slog_Level_value minLevel <=? slog_Level_value l)%Z.

(** The records of a sequence of calls to [slog] that reach the output. *)
Definition slog_output (minLevel : slog_Level) (recs : list slog_Record)
  : list slog_Record :=
  List.filter (λ r, slog_Enabled minLevel (rec_level r)) recs.

(** What [main] has done when it calls [http.ListenAndServe]: the level of
    the logger, its one call to [slog.Info], the patterns it registered on
    the default mux, the line it printed with [log.Printf], and the address
    it listens on. *)
Record Started := mkStarted {
  s_level : slog_Level;
  s_logged : list slog_Record;
  s_patterns : list string;
  s_printed : string;
  s_addr : string;
}.

(** [main], up to [http.ListenAndServe]. *)
Definition main_start (flags : Flags) : Started :=
  let level := initLogger flags in
  let logged :=
    if negb (String.eqb (mirrorHost flags) "") then
      let scheme := if mirrorHTTPS flags then "https" else "http" in
      [mkRecord LevelInfo "Mirroring enabled"
         [("host", StringValue (mirrorHost flags));
          ("port", IntValue (mirrorPort flags));
          ("path", StringValue (mirrorPath flags));
          ("scheme", StringValue scheme)]]
    else [mkRecord LevelInfo "Mirroring disabled" []] in
  {| s_level := level;
     s_logged := logged;
     s_patterns := ["/metrics"; "/data/report/"];
     s_printed := "awp-exporter listening on " +:+ ":" +:+ fmt_d (port flags);
     s_addr := ":" +:+ fmt_d (port flags) |}.

(* ===================================================================== *)
(** * An instance of the environment, for the examples *)
(* ===================================================================== *)

Fixpoint decimal_digits (acc : Z) (s : string) : option (Z * nat) :=
  match s with
  | "" => Some (acc, 0%nat)
  | String c s' =>
      if byte_between "0" "9" c
      then p ← decimal_digits (10 * acc + Z.of_N (N_of_ascii c - 48)) s';
           Some (p.1, S p.2)
      else None
  end.

(** A decimal numeral [digits] or [digits.digits], with an optional sign, as
    the pair of its digits read as an integer and the number of digits after
    the point: ["72.5"] is [(725, 1)].  [strconv.ParseFloat] accepts these
    strings, and more (exponents, hexadecimal forms, [Inf], [NaN]). *)
Definition decimal_ParseFloat (s : string) : option (Z * nat) :=
  let '(neg, body) :=
    match s with
    | String "-" s' => (true, s')
    | String "+" s' => (false, s')
    | _ => (false, s)
    end in
  let '(ip, fp, dot) := strings_Cut body "." in
  if (String.length ip + String.length fp =? 0)%nat then None
  else
    i ← decimal_digits 0 ip;
    f ← decimal_digits i.1 fp;
    Some (if neg then (- f.1)%Z else f.1, f.2).

(** The environment of the examples: decimal numerals for [ParseFloat], the
    legacy metric-name check, a [range] that yields the entries in the order
    of [map_to_list], an [http.NewRequest] that accepts the URL it is given,
    and the identity for the upper-casing of strings that are not ASCII
    (the examples have none). *)
Definition examplePlatform : Platform := {|
  float64 := Z * nat;
  strconv_ParseFloat := decimal_ParseFloat;
  unicode_ToUpper := λ s, s;
  IsValidMetricName := IsValidLegacyMetricName;
  http_NewRequest_err := λ _, None;
  range_order := map_to_list;
  range_order_perm := λ m, Permutation_refl (map_to_list m);
|}.

(** The mirror flags of the scenario: host [h], port 8000, path
    [/data/report], no HTTPS. *)
Definition scenarioFlags : Flags :=
  {| port := 6255; verbose := false; mirrorHost := "h"; mirrorPort := 8000;
     mirrorPath := "/data/report"; mirrorHTTPS := false |}.

(** The observations of the scenario. *)
Definition scenarioVals : Values :=
  <["tempf" := ["72.5"]]> (<["humidity" := ["45"]]> (<["PASSKEY" := ["abc"]]> ∅)).

(** The report of the scenario, as [net/http] hands it to the handler. *)
Definition scenarioRequest : Request :=
  mkRequest (mkURL "" "" "/data/report/TEST_STATION" false
               "tempf=72.5&humidity=45&PASSKEY=abc") "192.0.2.7:51234".

(** A sink that answers 200. *)
Definition sinkOK : OutboundRequest → DoResult := λ _, DoResponse 200.

(** A report with a value that is no number and a field in mixed case that
    is ignored. *)
Definition mixedRequest : Request :=
  mkRequest (mkURL "" "" "/data/report/TEST_STATION" false
               "tempf=72.5&windspeedmph=N/A&PassKey=abc&humidity=45") "192.0.2.7:51234".

(** A report whose station, once percent-decoded, is the byte [0xff]:
    the request target [/data/report/%ff?tempf=72.5]. *)
Definition badStationRequest : Request :=
  mkRequest (mkURL "" "" ("/data/report/" +:+ String "255" "") false "tempf=72.5")
    "192.0.2.7:51234".

(** A report with a standard query and a ['&'] in the last segment of its
    path. *)
Definition bothRequest : Request :=
  mkRequest (mkURL "" "" "/data/report/ST&x=1" false "tempf=72.5") "192.0.2.7:51234".

(** Two reports of the same station, the second with a new temperature and
    without the humidity. *)
Definition firstReport : Request :=
  mkRequest (mkURL "" "" "/data/report/TEST_STATION" false "tempf=72.5&humidity=45")
    "192.0.2.7:51234".

Definition secondReport : Request :=
  mkRequest (mkURL "" "" "/data/report/TEST_STATION" false "tempf=73.1&PASSKEY=abc")
    "192.0.2.7:51235".

(** A report of the kind some devices send, with the observations in the
    path. *)
Definition ampersandRequest : Request :=
  mkRequest (mkURL "" "" "/data/report/TEST_STATION&tempf=72.5&humidity=45" false "")
    "192.0.2.7:51234".

(** A sink that cannot be reached. *)
Definition sinkDown : OutboundRequest → DoResult := λ _, DoError "connection refused".

(* ===================================================================== *)
(** * Specification vocabulary *)
(* ===================================================================== *)

(** Two bytes that are equal up to the case of an ASCII letter. *)
Definition byte_eq_fold (a b : ascii) : bool :=
  byte_eqb a b ||
  (byte_between "a" "z" a && byte_eqb (upperByte a) b) ||
  (byte_between "a" "z" b && byte_eqb (upperByte b) a).

(** Case-insensitive comparison of two field names. *)
Fixpoint equal_fold (s t : string) : bool :=
  match s, t with
  | "", "" => true
  | String a s', String b t' => byte_eq_fold a b && equal_fold s' t'
  | _, _ => false
  end.

(** The field name matches the Ignored-Field Set, case-insensitively. *)
Definition ignored_field (k : string) : bool :=
  existsb (equal_fold k) ignoredKeys.

(** The ASCII part of lower-casing. *)
Definition lowerByte (c : ascii) : ascii :=
  if byte_between "A" "Z" c then ascii_of_N (N_of_ascii c + 32) else c.

(** An encoded pair of a query string, [key=value]. *)
Definition enc_pair (p : string * string) : string :=
  url_QueryEscape p.1 +:+ "=" +:+ url_QueryEscape p.2.

(** The items of a query string, joined by ['&']. *)
Fixpoint join_amp (items : list string) : string :=
  match items with
  | [] => ""
  | [x] => x
  | x :: rest => x +:+ String "&" (join_amp rest)
  end.

(** [if buf.Len() > 0 { buf.WriteByte('&') }; buf.WriteString(item)]. *)
Definition add_item (buf item : string) : string :=
  (if (0 <? String.length buf)%nat then buf +:+ "&" else buf) +:+ item.

(** The pairs of a [url.Values], keys in sorted order and the values of a
    key in the order of its list. *)
Definition pairs_of (v : Values) : list (string * string) :=
  sorted_keys v ≫= λ k, (k,.) <$> default [] (v !! k).

(** The values a list of pairs gives to the key [k], in order. *)
Definition vals_of (k : string) (pairs : list (string * string)) : list string :=
  (filter (λ p, p.1 = k) pairs).*2.

(** No byte of [s] is escaped in the given part of a URL. *)
Definition plain (mode : encoding) (s : string) : bool :=
  str_forallb (λ c, negb (shouldEscape c mode)) s.

Section Specification.
Context `{Platform}.

(** The registry is well formed: every field of [gaugeMap] has a live
    collector that carries the field's metric name, is the collector
    registered under that name, and has a name the client accepts; and the
    exporter is the sole creator of registered collectors. *)
Record registry_inv (st : State) : Prop := {
  inv_live : ∀ F g, gaugeMap st !! F = Some g →
      ∃ vec, heap st !! g = Some vec ∧ gv_Name vec = "awp_" +:+ F;
  inv_registered : ∀ F g, gaugeMap st !! F = Some g →
      registered st !! ("awp_" +:+ F) = Some g;
  inv_valid : ∀ F g, gaugeMap st !! F = Some g →
      IsValidMetricName ("awp_" +:+ F) = true;
  inv_sole_creator : ∀ n g, registered st !! n = Some g →
      ∃ F, n = "awp_" +:+ F ∧ gaugeMap st !! F = Some g;
}.

(** The operations that touch the registry.  With the lock of [getGauge]
    and the client's own synchronisation of [Set], every interleaving of
    concurrent handlers is a sequence of such steps. *)
Inductive Op :=
  | OpGetGauge (field : string)
  | OpSet (g : loc) (lv : string) (f : float64)
  | OpReport (r : Request).

Definition run_op (st : State) (op : Op) : State :=
  match op with
  | OpGetGauge field => result_state (getGauge field st)
  | OpSet g lv f => result_state (WithLabelValues_Set g lv f st)
  | OpReport r => result_state (h_result (reportHandler newResponse r st))
  end.

Definition run_ops (ops : list Op) (st : State) : State := foldl run_op st ops.

(** What the steps of the loop leave alone for a field [k] they do not
    handle: its entry, its registration and its collector. *)
Definition untouched (k : string) (st st' : State) : Prop :=
  gaugeMap st' !! k = gaugeMap st !! k ∧
  registered st' !! ("awp_" +:+ k) = registered st !! ("awp_" +:+ k) ∧
  ∀ g, gaugeMap st !! k = Some g → heap st' !! g = heap st !! g.

(** The loop passes over an entry whose field is ignored or whose first
    value is no number. *)
Definition passed_over (p : string * list string) : bool :=
  slices_Contains ignoredKeys (strings_ToUpper unicode_ToUpper p.1) ||
  match p.2 with
  | v0 :: _ => bool_decide (strconv_ParseFloat v0 = None)
  | [] => false
  end.

(** The number the loop reads for the field [k] of a report, if it reads
    one: the field is not ignored and its first value is accepted by
    [strconv.ParseFloat]. *)
Definition measured_value (vals : Values) (k : string) : option float64 :=
  match vals !! k with
  | Some (v0 :: _) =>
      if slices_Contains ignoredKeys (strings_ToUpper unicode_ToUpper k) then None
      else strconv_ParseFloat v0
  | _ => None
  end.

(** An entry at which the loop panics on a well-formed registry: the loop
    does not pass it over, and it has no first value, or the station is not
    valid UTF-8, or its field has no collector yet and the client refuses
    the field's metric name. *)
Definition blocked (st : State) (S : string) (p : string * list string) : bool :=
  negb (passed_over p) &&
  (bool_decide (p.2 = []) || negb (utf8_ValidString S) ||
   (bool_decide (gaugeMap st !! p.1 = None) &&
    negb (IsValidMetricName ("awp_" +:+ p.1)))).

(** The descriptor [getGauge] gives to the collector of the field [F]. *)
Definition created_for (F : string) (vec : GaugeVec) : Prop :=
  gv_Name vec = "awp_" +:+ F ∧
  gv_Help vec = "AWP sensor value for " +:+ F ∧
  gv_labelNames vec = ["station"].

(** From [st] to [st'] no collector was lost or renamed, no value of a
    station other than [S] was changed, and every collector that is new has
    the descriptor of some field and no value for a station other than [S]. *)
Definition station_step (S : string) (st st' : State) : Prop :=
  (∀ g vec, heap st !! g = Some vec →
     ∃ vec', heap st' !! g = Some vec' ∧
             gv_Name vec' = gv_Name vec ∧ gv_Help vec' = gv_Help vec ∧
             gv_labelNames vec' = gv_labelNames vec ∧
             ∀ S', S' ≠ S → gv_metrics vec' !! S' = gv_metrics vec !! S') ∧
  (∀ g vec', heap st !! g = None → heap st' !! g = Some vec' →
     (∃ F, created_for F vec') ∧ ∀ S', S' ≠ S → gv_metrics vec' !! S' = None).

(** Every collector has the descriptor of some field. *)
Definition descriptors_inv (st : State) : Prop :=
  ∀ g vec, heap st !! g = Some vec → ∃ F, created_for F vec.

(** Two states with the same collectors, the same [gaugeMap.m] and the same
    registered collectors: they differ in the log at most. *)
Definition same_registry (st st' : State) : Prop :=
  heap st' = heap st ∧ gaugeMap st' = gaugeMap st ∧ registered st' = registered st.

(** The value the exposition endpoint shows for the field [k] and the
    station [S]: that of the child gauge of the field's collector. *)
Definition gauge_value (st : State) (k S : string) : option float64 :=
  g ← gaugeMap st !! k; vec ← heap st !! g; gv_metrics vec !! S.

(** One request served: the handler's call, and its goroutines run against
    a mirror sink that answers as [Do] says. *)
Definition serve (flags : Flags) (Do : OutboundRequest → DoResult)
    (r : Request) (st : State) : Handled * list Mirrored :=
  let h := reportHandler newResponse r st in
  (h, run_mirror flags Do <$> h_spawned h).

End Specification.

(* ===================================================================== *)
(** * Facts about [strings] *)
(* ===================================================================== *)

Section StringFacts.

Lemma str_app_cons (x : ascii) (a b : string) :
  String x a +:+ b = String x (a +:+ b).
Proof. reflexivity. Qed.

Lemma str_app_nil_l (b : string) : "" +:+ b = b.
Proof. reflexivity. Qed.

Lemma str_app_assoc (a b c : string) : (a +:+ b) +:+ c = a +:+ (b +:+ c).
Proof.
  induction a as [|x a IH]; [done|]. by rewrite !str_app_cons, IH.
Qed.

Lemma str_app_nil_r (a : string) : a +:+ "" = a.
Proof. induction a as [|x a IH]; [done|]. by rewrite str_app_cons, IH. Qed.

Lemma str_length_app (a b : string) :
  String.length (a +:+ b) = (String.length a + String.length b)%nat.
Proof.
  induction a as [|x a IH]; [done|]. rewrite str_app_cons. simpl. by rewrite IH.
Qed.

Lemma str_eqb_nil (s : string) : String.eqb s "" = bool_decide (s = "").
Proof. by destruct s. Qed.

Lemma str_no_app c (a b : string) :
  str_no c (a +:+ b) = str_no c a && str_no c b.
Proof.
  unfold str_no. induction a as [|x a IH]; [done|].
  rewrite str_app_cons. simpl. by rewrite IH, andb_assoc.
Qed.

Lemma str_length_drop n (s : string) :
  String.length (str_drop n s) = (String.length s - n)%nat.
Proof.
  revert s. induction n as [|n IH]; intros [|x s]; simpl; try done.
Qed.

Lemma str_take_app (a b : string) : str_take (String.length a) (a +:+ b) = a.
Proof.
  induction a as [|x a IH]; [by destruct b|].
  rewrite str_app_cons. simpl. by rewrite IH.
Qed.

Lemma str_drop_app (a b : string) : str_drop (String.length a) (a +:+ b) = b.
Proof.
  induction a as [|x a IH]; [done|]. rewrite str_app_cons. simpl. by rewrite IH.
Qed.

Lemma HasPrefix_byte (s : string) (c : ascii) :
  strings_HasPrefix s (String c "") =
  match s with
  | "" => false
  | String a _ => bool_decide (c = a)
  end.
Proof.
  unfold strings_HasPrefix. destruct s as [|a s]; simpl; [done|].
  destruct (ascii_dec c a) as [->|Hne]; simpl.
  - rewrite bool_decide_eq_true_2 by done. by destruct s.
  - by rewrite bool_decide_eq_false_2.
Qed.

Lemma byte_eqb_decide (a c : ascii) : byte_eqb a c = bool_decide (a = c).
Proof.
  unfold byte_eqb. destruct (Ascii.eqb_spec a c) as [->|Hne].
  - by rewrite bool_decide_eq_true_2.
  - by rewrite bool_decide_eq_false_2.
Qed.

(** The first occurrence of a byte. *)
Lemma Index_byte_found (a b : string) (c : ascii) :
  str_no c a = true →
  strings_Index (a +:+ String c b) (String c "") = Some (String.length a).
Proof.
  unfold str_no. induction a as [|x a IH]; intros Hno.
  - rewrite str_app_nil_l. cbn [strings_Index]. rewrite HasPrefix_byte.
    by rewrite bool_decide_eq_true_2.
  - simpl in Hno. apply andb_true_iff in Hno as [Hx Hno].
    rewrite str_app_cons.
    cbn [strings_Index]. rewrite HasPrefix_byte.
    rewrite byte_eqb_decide in Hx. apply negb_true_iff, bool_decide_eq_false in Hx.
    rewrite bool_decide_eq_false_2 by congruence.
    by rewrite (IH Hno).
Qed.

Lemma Index_byte_none (s : string) (c : ascii) :
  str_no c s = true ↔ strings_Index s (String c "") = None.
Proof.
  unfold str_no. induction s as [|x s IH]; cbn [strings_Index str_forallb].
  - by rewrite HasPrefix_byte.
  - rewrite HasPrefix_byte, byte_eqb_decide, andb_true_iff, negb_true_iff,
      bool_decide_eq_false.
    case_bool_decide as Hcx.
    + split; [intros [Hne _]; congruence|done].
    + rewrite IH. destruct (strings_Index s (String c "")) as [n|]; simpl.
      * split; [by intros [_ ?]|done].
      * split; [done|]. intros _. split; [congruence|done].
Qed.

Lemma Cut_byte_found (a b : string) (c : ascii) :
  str_no c a = true →
  strings_Cut (a +:+ String c b) (String c "") = (a, b, true).
Proof.
  intros Hno. unfold strings_Cut. rewrite (Index_byte_found _ _ _ Hno).
  rewrite str_take_app. simpl String.length.
  replace (String.length a + 1)%nat with (String.length (a +:+ String c "")).
  - replace (a +:+ String c b) with ((a +:+ String c "") +:+ b).
    + by rewrite str_drop_app.
    + by rewrite str_app_assoc.
  - rewrite str_length_app. simpl. lia.
Qed.

Lemma Cut_byte_none (s : string) (c : ascii) :
  str_no c s = true → strings_Cut s (String c "") = (s, "", false).
Proof.
  intros Hno%Index_byte_none. unfold strings_Cut. by rewrite Hno.
Qed.

(** What is left after a cut is shorter than a string that is not empty. *)
Lemma Cut_rest_shorter (s sep : string) :
  s ≠ "" → (0 < String.length sep)%nat →
  (String.length (strings_Cut s sep).1.2 < String.length s)%nat.
Proof.
  intros Hs Hsep. unfold strings_Cut. destruct (strings_Index s sep) as [i|]; simpl.
  - rewrite str_length_drop. destruct s; [done|]. simpl. lia.
  - destruct s; [done|]. simpl. lia.
Qed.

Lemma Contains_byte_no (s : string) (c : ascii) :
  str_no c s = true → strings_Contains s (String c "") = false.
Proof.
  intros Hno%Index_byte_none. unfold strings_Contains. rewrite Hno.
  apply bool_decide_eq_false. by intros [? ?].
Qed.

End StringFacts.

(* ===================================================================== *)
(** * Facts about [net/url] *)
(* ===================================================================== *)

Section UrlFacts.

Lemma parseQuery_loop_enough n1 n2 q m err :
  (String.length q ≤ n1)%nat → (String.length q ≤ n2)%nat →
  parseQuery_loop n1 m err q = parseQuery_loop n2 m err q.
Proof.
  revert n2 q m err. induction n1 as [|n1 IH]; intros n2 q m err H1 H2.
  - destruct q; [|simpl in H1; lia]. by destruct n2.
  - destruct n2 as [|n2].
    + destruct q; [done|simpl in H2; lia].
    + simpl. destruct (String.eqb q "") eqn:Hq; [done|].
      assert (q ≠ "") as Hne by (by intros ->).
      pose proof (Cut_rest_shorter q "&" Hne ltac:(simpl; lia)) as Hlt.
      destruct (strings_Cut q "&") as [[key rest] found]. simpl in Hlt.
      destruct (parseQuery_step m err key) as [m' err'].
      apply IH; lia.
Qed.

(** [parseQuery] satisfies the equation of the loop [for query != ""]. *)
Lemma parseQuery_eq m err q :
  parseQuery m err q =
  if String.eqb q "" then (m, err)
  else let '(key, rest, _) := strings_Cut q "&" in
       let '(m', err') := parseQuery_step m err key in
       parseQuery m' err' rest.
Proof.
  unfold parseQuery. destruct q as [|c q]; [done|].
  cbn [String.length parseQuery_loop String.eqb].
  assert (String c q ≠ "") as Hne by done.
  pose proof (Cut_rest_shorter (String c q) "&" Hne ltac:(simpl; lia)) as Hlt.
  destruct (strings_Cut (String c q) "&") as [[key rest] found]. simpl in Hlt.
  destruct (parseQuery_step m err key) as [m' err'].
  apply parseQuery_loop_enough; lia.
Qed.

Lemma parseQuery_step_nil m err : parseQuery_step m err "" = (m, err).
Proof. reflexivity. Qed.

(** A segment without ['&'] followed by ['&'] and the rest of the query. *)
Lemma parseQuery_segment m err x rest :
  str_no "&" x = true →
  parseQuery m err (x +:+ String "&" rest) =
  parseQuery (parseQuery_step m err x).1 (parseQuery_step m err x).2 rest.
Proof.
  intros Hno. rewrite parseQuery_eq.
  replace (String.eqb (x +:+ String "&" rest) "") with false by (by destruct x).
  change (String "&" rest) with (String "&"%char rest).
  rewrite (Cut_byte_found x rest "&" Hno).
  by destruct (parseQuery_step m err x).
Qed.

Lemma parseQuery_last m err x :
  str_no "&" x = true → parseQuery m err x = parseQuery_step m err x.
Proof.
  intros Hno. rewrite parseQuery_eq. destruct (String.eqb x "") eqn:Hx.
  - apply String.eqb_eq in Hx as ->. done.
  - rewrite (Cut_byte_none x "&" Hno).
    destruct (parseQuery_step m err x) as [m' err']. by rewrite parseQuery_eq.
Qed.

(** [QueryEscape] leaves none of the separators of a query in its result. *)
Lemma QueryEscape_no_separator s :
  str_no "&" (url_QueryEscape s) = true ∧
  str_no ";" (url_QueryEscape s) = true ∧
  str_no "=" (url_QueryEscape s) = true.
Proof.
  unfold url_QueryEscape. induction s as [|a s IH]; [done|].
  destruct a as [[] [] [] [] [] [] [] []]; exact IH.
Qed.

Lemma unescape_convert_escape s :
  unescape_convert (escape s encodeQueryComponent) encodeQueryComponent = s.
Proof.
  induction s as [|a s IH]; [done|].
  destruct a as [[] [] [] [] [] [] [] []]; exact (f_equal (String _) IH).
Qed.

Lemma unescape_check_escape s :
  unescape_check (escape s encodeQueryComponent) encodeQueryComponent = None.
Proof.
  induction s as [|a s IH]; [done|].
  destruct a as [[] [] [] [] [] [] [] []]; exact IH.
Qed.

(** [QueryUnescape] inverts [QueryEscape]. *)
Lemma QueryUnescape_QueryEscape s : url_QueryUnescape (url_QueryEscape s) = inl s.
Proof.
  unfold url_QueryUnescape, url_QueryEscape, unescape.
  by rewrite unescape_check_escape, unescape_convert_escape.
Qed.

Lemma str_app_cons_nonempty (a b : string) (c : ascii) :
  String.eqb (a +:+ String c b) "" = false.
Proof. by destruct a. Qed.

Lemma enc_pair_no_amp p : str_no "&" (enc_pair p) = true.
Proof.
  unfold enc_pair. rewrite !str_no_app.
  destruct (QueryEscape_no_separator p.1) as (-> & _ & _).
  destruct (QueryEscape_no_separator p.2) as (-> & _ & _). done.
Qed.

Lemma enc_pair_nonempty p : enc_pair p ≠ "".
Proof.
  unfold enc_pair. intros Heq.
  pose proof (str_app_cons_nonempty (url_QueryEscape p.1) (url_QueryEscape p.2) "=") as Hne.
  change (String "=" (url_QueryEscape p.2)) with ("=" +:+ url_QueryEscape p.2) in Hne.
  rewrite Heq in Hne. done.
Qed.

(** One turn of [parseQuery] on an encoded pair appends the pair. *)
Lemma parseQuery_step_enc_pair m err p :
  parseQuery_step m err (enc_pair p) = (values_append m p.1 p.2, err).
Proof.
  unfold parseQuery_step.
  destruct (QueryEscape_no_separator p.1) as (_ & Hs1 & He1).
  destruct (QueryEscape_no_separator p.2) as (_ & Hs2 & _).
  rewrite Contains_byte_no by (unfold enc_pair; by rewrite !str_no_app, Hs1, Hs2).
  rewrite str_eqb_nil, bool_decide_eq_false_2 by apply enc_pair_nonempty.
  unfold enc_pair.
  change ("=" +:+ url_QueryEscape p.2) with (String "=" (url_QueryEscape p.2)).
  rewrite (Cut_byte_found _ _ "=" He1).
  by rewrite !QueryUnescape_QueryEscape.
Qed.

Lemma parseQuery_join items m err :
  Forall (λ x, str_no "&" x = true) items →
  parseQuery m err (join_amp items) =
  foldl (λ me x, parseQuery_step me.1 me.2 x) (m, err) items.
Proof.
  revert m err. induction items as [|x [|y rest] IH]; intros m err Hall.
  - by rewrite parseQuery_eq.
  - apply Forall_cons in Hall as [Hx _]. simpl. by apply parseQuery_last.
  - apply Forall_cons in Hall as [Hx Hall].
    change (join_amp (x :: y :: rest)) with (x +:+ String "&" (join_amp (y :: rest))).
    rewrite (parseQuery_segment _ _ _ _ Hx), (IH _ _ Hall).
    simpl. by destruct (parseQuery_step m err x).
Qed.

Lemma parseQuery_join_pairs pairs m err :
  parseQuery m err (join_amp (enc_pair <$> pairs)) =
  (foldl (λ m p, values_append m p.1 p.2) m pairs, err).
Proof.
  rewrite parseQuery_join.
  - revert m. induction pairs as [|p pairs IH]; intros m; simpl; [done|].
    by rewrite parseQuery_step_enc_pair, IH.
  - apply Forall_fmap, Forall_forall. intros p _. apply enc_pair_no_amp.
Qed.

(** The buffer of [Values.Encode] is the items joined by ['&']. *)
Lemma add_item_join items buf :
  Forall (λ x, x ≠ "") items →
  foldl add_item buf items =
  match items with
  | [] => buf
  | _ => if String.eqb buf "" then join_amp items
         else buf +:+ String "&" (join_amp items)
  end.
Proof.
  revert buf. induction items as [|x rest IH]; intros buf Hall; [done|].
  apply Forall_cons in Hall as [Hx Hall]. cbn [foldl]. rewrite (IH _ Hall).
  assert (String.eqb (add_item buf x) "" = false) as Hne.
  { unfold add_item. destruct buf as [|b buf]; simpl.
    - by destruct x.
    - done. }
  unfold add_item in *. destruct rest as [|y rest].
  - destruct buf as [|b buf]; simpl; [done|].
    rewrite !str_app_assoc. reflexivity.
  - rewrite Hne. destruct buf as [|b buf]; simpl; [done|].
    rewrite !str_app_assoc. reflexivity.
Qed.

Lemma foldl_bind_list {A B C} (f : A → C → A) (g : B → list C) (a : A) (l : list B) :
  foldl f a (l ≫= g) = foldl (λ a x, foldl f a (g x)) a l.
Proof.
  revert a. induction l as [|x l IH]; intros a; [done|].
  rewrite bind_cons, foldl_app. simpl. apply IH.
Qed.

Lemma foldl_ext_list {A B} (f g : A → B → A) (a : A) (l : list B) :
  (∀ a x, f a x = g a x) → foldl f a l = foldl g a l.
Proof.
  intros Hfg. revert a. induction l as [|x l IH]; intros a; [done|].
  simpl. by rewrite Hfg, IH.
Qed.

Lemma Encode_join (v : Values) :
  url_Values_Encode v = join_amp (enc_pair <$> pairs_of v).
Proof.
  unfold url_Values_Encode, pairs_of.
  transitivity (foldl add_item "" (enc_pair <$> (sorted_keys v ≫= λ k, (k,.) <$> default [] (v !! k)))).
  - rewrite foldl_fmap, foldl_bind_list. apply foldl_ext_list. intros buf k.
    generalize (default [] (v !! k)). intros l. revert buf.
    induction l as [|x l IH]; intros buf; [done|]. simpl. by rewrite <- IH.
  - rewrite add_item_join.
    + by destruct (enc_pair <$> _).
    + apply Forall_fmap, Forall_forall. intros p _. apply enc_pair_nonempty.
Qed.

Lemma lookup_foldl_append (pairs : list (string * string)) (m : Values) k :
  foldl (λ m p, values_append m p.1 p.2) m pairs !! k =
  match vals_of k pairs with
  | [] => m !! k
  | l => Some (default [] (m !! k) ++ l)
  end.
Proof.
  revert m. induction pairs as [|[k' x] pairs IH]; intros m; [done|].
  cbn [foldl]. rewrite IH. unfold vals_of, values_append. cbn [fst snd].
  destruct (decide (k' = k)) as [->|Hne].
  - rewrite filter_cons_True by done. rewrite fmap_cons, lookup_insert_eq.
    cbn [snd default]. destruct ((filter _ pairs).*2) as [|y l]; [done|].
    unfold id. by rewrite <- app_assoc.
  - rewrite filter_cons_False by done. by rewrite lookup_insert_ne.
Qed.

Lemma vals_of_bind (ks : list string) (f : string → list string) k :
  NoDup ks →
  vals_of k (ks ≫= λ k', (k',.) <$> f k') = if decide (k ∈ ks) then f k else [].
Proof.
  assert (Hone : ∀ k' l, vals_of k ((k',.) <$> l) = if decide (k' = k) then l else []).
  { intros k' l. unfold vals_of. destruct (decide (k' = k)) as [->|Hne].
    - induction l as [|x l IHl]; [done|].
      rewrite fmap_cons, filter_cons_True by done. by rewrite fmap_cons, IHl.
    - induction l as [|x l IHl]; [done|].
      by rewrite fmap_cons, filter_cons_False. }
  induction ks as [|k0 ks IH]; intros Hnd.
  - by rewrite decide_False by apply not_elem_of_nil.
  - apply NoDup_cons in Hnd as [Hk0 Hnd]. rewrite bind_cons.
    unfold vals_of in *. rewrite filter_app, fmap_app, Hone, (IH Hnd).
    destruct (decide (k0 = k)) as [->|Hne].
    + rewrite decide_False by done. rewrite decide_True by left.
      by rewrite app_nil_r.
    + simpl. destruct (decide (k ∈ ks)) as [Hin|Hnin].
      * by rewrite decide_True by by right.
      * rewrite decide_False; [done|]. by intros [->|?]%elem_of_cons.
Qed.

Lemma sorted_keys_spec (v : Values) :
  NoDup (sorted_keys v) ∧ ∀ k, k ∈ sorted_keys v ↔ is_Some (v !! k).
Proof.
  unfold sorted_keys. split.
  - rewrite merge_sort_Permutation. apply NoDup_fst_map_to_list.
  - intros k. rewrite merge_sort_Permutation, list_elem_of_fmap. split.
    + intros ([k' l] & -> & Hin%elem_of_map_to_list). by eexists.
    + intros [l Hl]. exists (k, l). split; [done|]. by apply elem_of_map_to_list.
Qed.

(** Decoding what [Encode] wrote gives the values back, provided no key is
    bound to an empty list (which [Encode] does not write at all). *)
Lemma ParseQuery_Encode (v : Values) :
  (∀ k l, v !! k = Some l → l ≠ []) →
  url_ParseQuery (url_Values_Encode v) = (v, None).
Proof.
  intros Hne. unfold url_ParseQuery. rewrite Encode_join, parseQuery_join_pairs.
  f_equal. apply map_eq. intros k. rewrite lookup_foldl_append.
  destruct (sorted_keys_spec v) as [Hnd Hin]. unfold pairs_of.
  rewrite (vals_of_bind _ (λ k, default [] (v !! k)) _ Hnd), lookup_empty. simpl.
  destruct (v !! k) as [l|] eqn:Hk.
  - rewrite decide_True by (apply Hin; by rewrite Hk). simpl.
    destruct l; [by specialize (Hne _ _ Hk)|done].
  - rewrite decide_False; [done|]. rewrite Hin, Hk. by intros [? ?].
Qed.

(** [parseQuery] never binds a key to an empty list. *)
Lemma parseQuery_nonempty m err q :
  (∀ k l, m !! k = Some l → l ≠ []) →
  ∀ k l, (parseQuery m err q).1 !! k = Some l → l ≠ [].
Proof.
  unfold parseQuery. generalize (String.length q). intros n.
  revert m err q. induction n as [|n IH]; intros m err q Hm; simpl; [done|].
  destruct (String.eqb q ""); [done|].
  destruct (strings_Cut q "&") as [[key rest] found].
  destruct (parseQuery_step m err key) as [m' err'] eqn:Hstep.
  apply IH. clear IH. unfold parseQuery_step in Hstep.
  destruct (strings_Contains key ";"); [by injection Hstep as <- <-|].
  destruct (String.eqb key ""); [by injection Hstep as <- <-|].
  destruct (strings_Cut key "=") as [[key' value] found'].
  destruct (url_QueryUnescape key') as [k1|]; [|by injection Hstep as <- <-].
  destruct (url_QueryUnescape value) as [v1|]; [|by injection Hstep as <- <-].
  injection Hstep as <- <-. intros k l. unfold values_append.
  destruct (decide (k1 = k)) as [->|Hk].
  - rewrite lookup_insert_eq. intros [= <-]. by destruct (default [] (m !! k)).
  - rewrite lookup_insert_ne by done. apply Hm.
Qed.

Lemma ParseQuery_nonempty q k l : (url_ParseQuery q).1 !! k = Some l → l ≠ [].
Proof. apply parseQuery_nonempty. intros k' l'. by rewrite lookup_empty. Qed.

Lemma str_forallb_app (p : ascii → bool) (a b : string) :
  str_forallb p (a +:+ b) = str_forallb p a && str_forallb p b.
Proof.
  induction a as [|x a IH]; [done|].
  rewrite str_app_cons. simpl. by rewrite IH, andb_assoc.
Qed.

(** [escape] keeps a string in which no byte is to be escaped. *)
Lemma escape_plain (s : string) (mode : encoding) :
  mode ≠ encodeQueryComponent → plain mode s = true → escape s mode = s.
Proof.
  intros Hmode. unfold plain. induction s as [|c s IH]; intros Hp; [done|].
  simpl in Hp. apply andb_true_iff in Hp as [Hc Hs]. apply negb_true_iff in Hc.
  simpl. rewrite bool_decide_eq_false_2 by done. rewrite andb_false_r, Hc.
  by rewrite IH.
Qed.

Lemma string_of_uint_plain (d : Decimal.uint) :
  plain encodeHost (NilEmpty.string_of_uint d) = true.
Proof. induction d; simpl; first [done | exact IHd]. Qed.

(** [%d] prints digits and a sign, none of which is escaped in a host. *)
Lemma fmt_d_plain (z : Z) : plain encodeHost (fmt_d z) = true.
Proof.
  unfold fmt_d, NilZero.string_of_int, NilZero.string_of_uint.
  destruct (Z.to_int z) as [d|d]; destruct d; first [done | apply string_of_uint_plain].
Qed.

(** [URL.String] on a URL whose host and path need no escaping. *)
Lemma url_String_plain (scheme host path query : string) :
  scheme ≠ "" → host ≠ "" →
  plain encodeHost host = true → plain encodePath path = true →
  path = "" ∨ strings_HasPrefix path "/" = true →
  url_String (mkURL scheme host path false query) =
  scheme +:+ "://" +:+ host +:+ path +:+
    (if String.eqb query "" then "" else "?" +:+ query).
Proof.
  intros Hs Hh Hph Hpp Hslash. unfold url_String, url_EscapedPath. simpl.
  rewrite !str_eqb_nil.
  rewrite (bool_decide_eq_false_2 (scheme = "")), (bool_decide_eq_false_2 (host = "")) by done.
  simpl. rewrite !escape_plain by done.
  assert ((if String.eqb path "*" then "*" else path) = path) as ->.
  { destruct (String.eqb_spec path "*") as [->|]; done. }
  assert (negb (bool_decide (path = "")) && negb (strings_HasPrefix path "/") = false) as ->.
  { destruct Hslash as [->| ->]; [done|]. by rewrite andb_false_r. }
  simpl.
  assert (bool_decide (((scheme +:+ ":") +:+ "//") +:+ host = "") = false) as ->.
  { apply bool_decide_eq_false. destruct scheme; [done|]. by rewrite !str_app_cons. }
  simpl. rewrite !str_app_assoc.
  destruct (bool_decide (query = "")); simpl; [by rewrite str_app_nil_r|done].
Qed.

(** [URL.String] on a URL with a scheme and a host: host and path are
    escaped, and a ['/'] is put before a path that does not start with one. *)
Lemma url_String_host (scheme host path query : string) :
  scheme ≠ "" → host ≠ "" →
  url_String (mkURL scheme host path false query) =
  scheme +:+ "://" +:+ escape host encodeHost +:+
    (if negb (String.eqb (if String.eqb path "*" then "*" else escape path encodePath) "") &&
        negb (strings_HasPrefix (if String.eqb path "*" then "*" else escape path encodePath) "/")
     then "/" else "") +:+
    (if String.eqb path "*" then "*" else escape path encodePath) +:+
    (if String.eqb query "" then "" else "?" +:+ query).
Proof.
  intros Hs Hh. unfold url_String, url_EscapedPath. simpl.
  set (ep := if String.eqb path "*" then "*" else escape path encodePath).
  rewrite (str_eqb_nil scheme), (str_eqb_nil host).
  rewrite (bool_decide_eq_false_2 (scheme = "")), (bool_decide_eq_false_2 (host = "")) by done.
  simpl. rewrite andb_true_r.
  set (slash := negb (String.eqb ep "") && negb (strings_HasPrefix ep "/")).
  assert (Hbuf : ∀ t, String.eqb (((scheme +:+ ":") +:+ "//") +:+ t) "" = false).
  { intros t. destruct scheme; [done|]. by rewrite !str_app_cons. }
  assert ((if slash then (((scheme +:+ ":") +:+ "//") +:+ escape host encodeHost) +:+ "/"
           else ((scheme +:+ ":") +:+ "//") +:+ escape host encodeHost) =
          ((scheme +:+ ":") +:+ "//") +:+ (escape host encodeHost +:+
             (if slash then "/" else ""))) as ->.
  { destruct slash; [by rewrite !str_app_assoc|by rewrite str_app_nil_r]. }
  rewrite Hbuf. simpl. rewrite !str_app_assoc.
  destruct (String.eqb query ""); simpl; [by rewrite str_app_nil_r|done].
Qed.

End UrlFacts.

(* ===================================================================== *)
(** * Facts about [path.Base] *)
(* ===================================================================== *)

Section PathFacts.

Lemma stripTrailingSlashes_no_slash (s : string) :
  str_no "/" s = true → stripTrailingSlashes s = s.
Proof.
  unfold str_no. induction s as [|c s IH]; intros Hno; [done|].
  simpl in Hno. apply andb_true_iff in Hno as [Hc Hs]. apply negb_true_iff in Hc.
  simpl. by rewrite Hc, (IH Hs).
Qed.

Lemma stripTrailingSlashes_app (a seg : string) :
  str_no "/" seg = true → seg ≠ "" →
  stripTrailingSlashes (a +:+ seg) = a +:+ seg.
Proof.
  intros Hno Hne. induction a as [|x a IH].
  - by apply stripTrailingSlashes_no_slash.
  - rewrite str_app_cons. simpl. rewrite IH.
    replace (String.eqb (a +:+ seg) "") with false; [by rewrite andb_false_r|].
    destruct a; [by destruct seg|done].
Qed.

Lemma LastIndexByte_none (s : string) (c : ascii) :
  str_no c s = true → strings_LastIndexByte s c = None.
Proof.
  unfold str_no. induction s as [|x s IH]; intros Hno; [done|].
  simpl in Hno. apply andb_true_iff in Hno as [Hx Hs]. apply negb_true_iff in Hx.
  simpl. by rewrite (IH Hs), Hx.
Qed.

Lemma LastIndexByte_last (a seg : string) (c : ascii) :
  str_no c seg = true →
  strings_LastIndexByte (a +:+ String c seg) c = Some (String.length a).
Proof.
  intros Hno. induction a as [|x a IH].
  - rewrite str_app_nil_l. simpl. rewrite (LastIndexByte_none _ _ Hno).
    unfold byte_eqb. by rewrite Ascii.eqb_refl.
  - rewrite str_app_cons. simpl. by rewrite IH.
Qed.

(** The base of [dir/seg] is [seg], when [seg] is a segment. *)
Lemma path_Base_segment (dir seg : string) :
  str_no "/" seg = true → seg ≠ "" → path_Base (dir +:+ String "/" seg) = seg.
Proof.
  intros Hno Hne.
  assert (Hx : dir +:+ String "/" seg = (dir +:+ "/") +:+ seg)
    by (by rewrite str_app_assoc).
  assert (Hstrip : stripTrailingSlashes (dir +:+ String "/" seg) = dir +:+ String "/" seg).
  { rewrite Hx. by apply stripTrailingSlashes_app. }
  assert (Hdrop : str_drop (S (String.length dir)) (dir +:+ String "/" seg) = seg).
  { rewrite Hx. replace (S (String.length dir)) with (String.length (dir +:+ "/"))
      by (rewrite str_length_app; simpl; lia).
    apply str_drop_app. }
  unfold path_Base. cbv zeta.
  rewrite Hstrip, (LastIndexByte_last _ _ _ Hno), Hdrop.
  replace (String.eqb (dir +:+ String "/" seg) "") with false by (by destruct dir).
  by destruct seg.
Qed.

End PathFacts.

(* ===================================================================== *)
(** * The registry *)
(* ===================================================================== *)

Section Registry.
Context `{Platform}.

Lemma registry_inv_init : registry_inv initState.
Proof. split; simpl; intros ? ?; rewrite lookup_empty; discriminate. Qed.

Lemma metric_name_inj (F1 F2 : string) : "awp_" +:+ F1 = "awp_" +:+ F2 → F1 = F2.
Proof. apply (inj (String.app "awp_")). Qed.

(** Distinct fields never share a collector. *)
Lemma registry_inv_handles_inj st F1 F2 g :
  registry_inv st →
  gaugeMap st !! F1 = Some g → gaugeMap st !! F2 = Some g → F1 = F2.
Proof.
  intros Hinv H1 H2.
  destruct (inv_live _ Hinv _ _ H1) as (v1 & Hv1 & Hn1).
  destruct (inv_live _ Hinv _ _ H2) as (v2 & Hv2 & Hn2).
  apply metric_name_inj. congruence.
Qed.

Lemma fresh_not_live (h : gmap loc GaugeVec) : h !! fresh (dom h) = None.
Proof. apply not_elem_of_dom, is_fresh. Qed.

(** [getGauge] on a field that is present. *)
Lemma getGauge_present st field g :
  gaugeMap st !! field = Some g → getGauge field st = Returned g st.
Proof. intros Hg. unfold getGauge. by rewrite Hg. Qed.

(** [getGauge] on a field that is absent: the three ways it can go. *)
Lemma getGauge_absent st field :
  gaugeMap st !! field = None →
  let g := fresh (dom (heap st)) in
  let vec := mkGaugeVec ("awp_" +:+ field) ("AWP sensor value for " +:+ field)
               ["station"] ∅ in
  let st1 := set_heap <[g := vec]> st in
  (IsValidMetricName ("awp_" +:+ field) = false ∧
   ∃ msg, getGauge field st = Panicked msg st1) ∨
  (IsValidMetricName ("awp_" +:+ field) = true ∧
   is_Some (registered st !! ("awp_" +:+ field)) ∧
   ∃ msg, getGauge field st = Panicked msg st1) ∨
  (IsValidMetricName ("awp_" +:+ field) = true ∧
   registered st !! ("awp_" +:+ field) = None ∧
   getGauge field st =
     Returned g
       (slog_log LevelDebug "created GaugeVec"
          [("metric", StringValue ("awp_" +:+ field))]
          (set_gaugeMap <[field := g]>
             (set_registered <[("awp_" +:+ field) := g]> st1)))).
Proof.
  intros Hnone g vec st1. unfold getGauge. rewrite Hnone.
  unfold mbind, M_bind, bind, NewGaugeVec, MustRegister. simpl.
  fold g. rewrite lookup_insert_eq. simpl.
  destruct (IsValidMetricName ("awp_" +:+ field)) eqn:Hv; simpl.
  - right. case_bool_decide as Hreg.
    + left. eauto.
    + right. split; [done|]. split; [|done].
      by apply eq_None_not_Some.
  - left. eauto.
Qed.

Lemma registry_inv_alloc st vec :
  registry_inv st → registry_inv (set_heap <[fresh (dom (heap st)) := vec]> st).
Proof.
  intros [Hl Hr Hv Hs]. split; simpl; try done.
  intros F g Hg. destruct (Hl _ _ Hg) as (v & Hv' & Hn).
  exists v. split; [|done]. rewrite lookup_insert_ne; [done|].
  intros <-. by rewrite fresh_not_live in Hv'.
Qed.

Lemma getGauge_inv st field :
  registry_inv st → registry_inv (result_state (getGauge field st)).
Proof.
  intros Hinv. destruct (gaugeMap st !! field) as [g|] eqn:Hg.
  { by rewrite (getGauge_present _ _ _ Hg). }
  destruct (getGauge_absent _ _ Hg) as [(_ & msg & ->)|[(_ & _ & msg & ->)|(Hval & Hreg & ->)]];
    simpl; try by apply registry_inv_alloc.
  pose proof (registry_inv_alloc st
    (mkGaugeVec ("awp_" +:+ field) ("AWP sensor value for " +:+ field) ["station"] ∅) Hinv)
    as [Hl Hr Hv Hs].
  set (g := fresh (dom (heap st))) in *. simpl in *.
  split; simpl.
  - intros F g' HF. destruct (decide (field = F)) as [->|Hne].
    + rewrite lookup_insert_eq in HF. injection HF as <-.
      rewrite lookup_insert_eq. eauto.
    + rewrite lookup_insert_ne in HF by done. by apply Hl.
  - intros F g' HF. destruct (decide (field = F)) as [->|Hne].
    + rewrite lookup_insert_eq in HF. injection HF as <-. by rewrite lookup_insert_eq.
    + rewrite lookup_insert_ne in HF by done.
      rewrite lookup_insert_ne; [by apply Hr|].
      intros Heq. by apply metric_name_inj in Heq.
  - intros F g' HF. destruct (decide (field = F)) as [->|Hne]; [done|].
    rewrite lookup_insert_ne in HF by done. by eapply Hv.
  - intros n g' Hn. destruct (decide ("awp_" +:+ field = n)) as [<-|Hne].
    + rewrite lookup_insert_eq in Hn. injection Hn as <-.
      exists field. by rewrite lookup_insert_eq.
    + rewrite lookup_insert_ne in Hn by done.
      destruct (Hs _ _ Hn) as (F & -> & HF). exists F. split; [done|].
      rewrite lookup_insert_ne; [done|]. by intros ->.
Qed.

(** [getGauge] never removes a field and never changes its handle. *)
Lemma getGauge_mono st field F g :
  gaugeMap st !! F = Some g →
  gaugeMap (result_state (getGauge field st)) !! F = Some g.
Proof.
  intros HF. destruct (gaugeMap st !! field) as [g'|] eqn:Hg.
  { by rewrite (getGauge_present _ _ _ Hg). }
  destruct (getGauge_absent _ _ Hg) as [(_ & msg & ->)|[(_ & _ & msg & ->)|(Hval & Hreg & ->)]];
    simpl; try done.
  rewrite lookup_insert_ne; [done|]. intros ->. congruence.
Qed.

Lemma Set_gaugeMap st g lv f :
  gaugeMap (result_state (WithLabelValues_Set g lv f st)) = gaugeMap st ∧
  registered (result_state (WithLabelValues_Set g lv f st)) = registered st.
Proof.
  unfold WithLabelValues_Set. destruct (heap st !! g); [|done].
  by destruct (utf8_ValidString lv).
Qed.

Lemma Set_inv st g lv f :
  registry_inv st → registry_inv (result_state (WithLabelValues_Set g lv f st)).
Proof.
  intros [Hl Hr Hv Hs]. unfold WithLabelValues_Set.
  destruct (heap st !! g) as [vec|] eqn:Hvec; [|done].
  destruct (utf8_ValidString lv); [|done]. split; simpl; try done.
  intros F g' HF. destruct (Hl _ _ HF) as (v & Hv' & Hn).
  destruct (decide (g = g')) as [<-|Hne].
  - rewrite lookup_insert_eq. eexists. split; [done|]. simpl. congruence.
  - rewrite lookup_insert_ne by done. eauto.
Qed.

End Registry.

(* ===================================================================== *)
(** * The loop of [reportHandler] *)
(* ===================================================================== *)

Section Loop.
Context `{Platform}.

Lemma untouched_refl k st : untouched k st st.
Proof. by repeat split. Qed.

Lemma untouched_trans k st1 st2 st3 :
  untouched k st1 st2 → untouched k st2 st3 → untouched k st1 st3.
Proof.
  intros (Hg1 & Hr1 & Hh1) (Hg2 & Hr2 & Hh2). repeat split.
  - congruence.
  - congruence.
  - intros g Hg. rewrite Hh2, Hh1; [done..|]. congruence.
Qed.

Lemma getGauge_untouched st k field :
  registry_inv st → field ≠ k →
  untouched k st (result_state (getGauge field st)).
Proof.
  intros Hinv Hne. destruct (gaugeMap st !! field) as [g|] eqn:Hg.
  { rewrite (getGauge_present _ _ _ Hg). apply untouched_refl. }
  assert (Hfresh : ∀ g, gaugeMap st !! k = Some g →
            <[fresh (dom (heap st)) :=
                mkGaugeVec ("awp_" +:+ field) ("AWP sensor value for " +:+ field)
                  ["station"] ∅]> (heap st) !! g = heap st !! g).
  { intros g Hk. destruct (inv_live _ Hinv _ _ Hk) as (v & Hv & _).
    rewrite lookup_insert_ne; [done|]. intros <-. by rewrite fresh_not_live in Hv. }
  destruct (getGauge_absent _ _ Hg) as [(_ & msg & ->)|[(_ & _ & msg & ->)|(Hval & Hreg & ->)]];
    simpl; repeat split; simpl; try done.
  - by rewrite lookup_insert_ne.
  - rewrite lookup_insert_ne; [done|]. intros Heq. by apply metric_name_inj in Heq.
Qed.

Lemma getGauge_returned st field g st' :
  getGauge field st = Returned g st' → gaugeMap st' !! field = Some g.
Proof.
  intros Hget. destruct (gaugeMap st !! field) as [g'|] eqn:Hg.
  { rewrite (getGauge_present _ _ _ Hg) in Hget. congruence. }
  destruct (getGauge_absent _ _ Hg) as [(_ & msg & Heq)|[(_ & _ & msg & Heq)|(Hval & Hreg & Heq)]];
    rewrite Heq in Hget; try discriminate.
  injection Hget as <- <-. simpl. by rewrite lookup_insert_eq.
Qed.

Lemma Set_untouched st k field g lv f :
  registry_inv st → field ≠ k → gaugeMap st !! field = Some g →
  untouched k st (result_state (WithLabelValues_Set g lv f st)).
Proof.
  intros Hinv Hne Hg. unfold WithLabelValues_Set.
  destruct (heap st !! g) as [vec|]; [|apply untouched_refl].
  destruct (utf8_ValidString lv); [|apply untouched_refl].
  repeat split; simpl; try done.
  intros g' Hk. rewrite lookup_insert_ne; [done|].
  intros <-. apply Hne. by eapply registry_inv_handles_inj.
Qed.

(** One turn of the loop on an entry that is measured: [getGauge], then
    [Set] on the handle it returned. *)
Lemma measure_cases st field lv f (k : M unit) :
  (g ← getGauge field; WithLabelValues_Set g lv f;; k) st =
  match getGauge field st with
  | Panicked msg st1 => Panicked msg st1
  | Returned g st1 =>
      match WithLabelValues_Set g lv f st1 with
      | Panicked msg st2 => Panicked msg st2
      | Returned _ st2 => k st2
      end
  end.
Proof. unfold mbind, M_bind, bind. by destruct (getGauge field st). Qed.

Lemma loop_inv awpStation kvs st :
  registry_inv st → registry_inv (result_state (reportHandler_loop awpStation kvs st)).
Proof.
  revert st. induction kvs as [|[k vv] rest IH]; intros st Hinv; simpl; [done|].
  destruct (slices_Contains _ _); [by apply IH|].
  destruct vv as [|v0 vv]; [done|].
  destruct (strconv_ParseFloat v0) as [f|]; [|by apply IH].
  rewrite measure_cases.
  pose proof (getGauge_inv st k Hinv) as Hinv1.
  destruct (getGauge k st) as [g st1|msg st1]; [|done]. simpl in Hinv1.
  pose proof (Set_inv st1 g awpStation f Hinv1) as Hinv2.
  destruct (WithLabelValues_Set g awpStation f st1) as [[] st2|msg st2]; [|done].
  by apply IH.
Qed.

Lemma loop_mono awpStation kvs st F g :
  gaugeMap st !! F = Some g →
  gaugeMap (result_state (reportHandler_loop awpStation kvs st)) !! F = Some g.
Proof.
  revert st. induction kvs as [|[k vv] rest IH]; intros st HF; simpl; [done|].
  destruct (slices_Contains _ _); [by apply IH|].
  destruct vv as [|v0 vv]; [done|].
  destruct (strconv_ParseFloat v0) as [f|]; [|by apply IH].
  rewrite measure_cases.
  pose proof (getGauge_mono st k F g HF) as H1.
  destruct (getGauge k st) as [g' st1|msg st1]; [|done]. simpl in H1.
  pose proof (Set_gaugeMap st1 g' awpStation f) as [H2 _].
  destruct (WithLabelValues_Set g' awpStation f st1) as [[] st2|msg st2]; simpl in H2.
  - apply IH. by rewrite H2.
  - simpl. by rewrite H2.
Qed.

(** Entries of other fields leave the field [k] alone. *)
Lemma loop_untouched awpStation k kvs st :
  registry_inv st → Forall (λ p, p.1 ≠ k) kvs →
  untouched k st (result_state (reportHandler_loop awpStation kvs st)).
Proof.
  revert st. induction kvs as [|[k' vv] rest IH]; intros st Hinv Hall; simpl.
  { apply untouched_refl. }
  apply Forall_cons in Hall as [Hk' Hall]. simpl in Hk'.
  destruct (slices_Contains _ _); [by apply IH|].
  destruct vv as [|v0 vv]; [apply untouched_refl|].
  destruct (strconv_ParseFloat v0) as [f|]; [|by apply IH].
  rewrite measure_cases.
  pose proof (getGauge_inv st k' Hinv) as Hinv1.
  pose proof (getGauge_untouched st k k' Hinv Hk') as Hu1.
  destruct (getGauge k' st) as [g st1|msg st1] eqn:Hget; [|done]. simpl in *.
  apply getGauge_returned in Hget.
  pose proof (Set_inv st1 g awpStation f Hinv1) as Hinv2.
  pose proof (Set_untouched st1 k k' g awpStation f Hinv1 Hk' Hget) as Hu2.
  destruct (WithLabelValues_Set g awpStation f st1) as [[] st2|msg st2]; simpl in *.
  - eapply untouched_trans; [done|]. eapply untouched_trans; [done|]. by apply IH.
  - by eapply untouched_trans.
Qed.

Lemma loop_filter awpStation (k0 : string) kvs st :
  Forall (λ p, p.1 = k0 → passed_over p = true) kvs →
  reportHandler_loop awpStation kvs st =
  reportHandler_loop awpStation (filter (λ p, p.1 ≠ k0) kvs) st.
Proof.
  revert st. induction kvs as [|[k vv] rest IH]; intros st Hall; simpl; [done|].
  apply Forall_cons in Hall as [Hp Hall]. simpl in Hp.
  destruct (decide (k = k0)) as [->|Hne].
  - rewrite filter_cons_False by (simpl; auto).
    specialize (Hp eq_refl). unfold passed_over in Hp. simpl in Hp.
    destruct (slices_Contains _ _); [by apply IH|]. simpl in Hp.
    destruct vv as [|v0 vv]; [done|].
    apply bool_decide_eq_true in Hp. rewrite Hp. by apply IH.
  - rewrite filter_cons_True by done. simpl.
    destruct (slices_Contains _ _); [by apply IH|].
    destruct vv as [|v0 vv]; [done|].
    destruct (strconv_ParseFloat v0) as [f|]; [|by apply IH].
    rewrite !measure_cases. destruct (getGauge k st) as [g st1|]; [|done].
    destruct (WithLabelValues_Set g awpStation f st1) as [[] st2|]; [|done].
    by apply IH.
Qed.

(** The entries [range] yields have distinct keys and are those of the map. *)
Lemma range_order_lookup (vals : Values) k vv :
  (k, vv) ∈ range_order vals ↔ vals !! k = Some vv.
Proof. rewrite range_order_perm. apply elem_of_map_to_list. Qed.

Lemma range_order_without (vals : Values) k :
  filter (λ p, p.1 ≠ k) (range_order vals) ≡ₚ map_to_list (delete k vals).
Proof.
  apply NoDup_Permutation.
  - apply NoDup_filter. rewrite range_order_perm. apply NoDup_map_to_list.
  - apply NoDup_map_to_list.
  - intros [k' vv]. rewrite list_elem_of_filter, range_order_lookup,
      elem_of_map_to_list, lookup_delete_Some. simpl.
    split; intros [Hne Hl]; split; congruence.
Qed.

Lemma upper_letter_facts b :
  byte_between "A" "Z" b = true →
  isASCIIByte b = true ∧ upperByte b = b ∧ byte_between "a" "z" b = false.
Proof.
  destruct b as [[] [] [] [] [] [] [] []]; vm_compute; intros Hb;
    first [discriminate Hb | repeat split].
Qed.

Lemma lower_letter_ascii a : byte_between "a" "z" a = true → isASCIIByte a = true.
Proof.
  destruct a as [[] [] [] [] [] [] [] []]; vm_compute; intros Ha;
    first [discriminate Ha | reflexivity].
Qed.

Lemma byte_eq_fold_upper a b :
  byte_between "A" "Z" b = true → byte_eq_fold a b = true →
  isASCIIByte a = true ∧ upperByte a = b.
Proof.
  intros Hb Hfold. destruct (upper_letter_facts b Hb) as (Hascii & Hup & Hnl).
  unfold byte_eq_fold in Hfold. rewrite Hnl in Hfold. simpl in Hfold.
  rewrite orb_false_r in Hfold. apply orb_true_iff in Hfold as [Heq|Hlow].
  - apply Ascii.eqb_eq in Heq as ->. done.
  - apply andb_true_iff in Hlow as [Hl Heq]. apply Ascii.eqb_eq in Heq.
    split; [by apply lower_letter_ascii|done].
Qed.

Lemma equal_fold_upper k t :
  str_forallb (byte_between "A" "Z") t = true → equal_fold k t = true →
  str_forallb isASCIIByte k = true ∧ str_map upperByte k = t.
Proof.
  revert t. induction k as [|a k IH]; intros [|b t] Ht Hfold; simpl in *; try done.
  apply andb_true_iff in Ht as [Hb Ht]. apply andb_true_iff in Hfold as [Hab Hfold].
  destruct (byte_eq_fold_upper a b Hb Hab) as [-> ->].
  destruct (IH t Ht Hfold) as [-> ->]. done.
Qed.

(** A field that matches the Ignored-Field Set case-insensitively passes
    the test of the loop, [slices.Contains(ignoredKeys, strings.ToUpper(k))]. *)
Lemma ignored_field_contains k :
  ignored_field k = true →
  slices_Contains ignoredKeys (strings_ToUpper unicode_ToUpper k) = true.
Proof.
  unfold ignored_field. intros (t & Hin & Hfold)%existsb_exists.
  assert (Hupper : str_forallb (byte_between "A" "Z") t = true).
  { revert Hin. unfold ignoredKeys. simpl. intros Hin.
    repeat (destruct Hin as [<-|Hin]; [by vm_compute|]). done. }
  destruct (equal_fold_upper k t Hupper Hfold) as [Hascii Hmap].
  unfold strings_ToUpper. rewrite Hascii, Hmap.
  apply bool_decide_eq_true. by apply list_elem_of_In.
Qed.

End Loop.

(* ===================================================================== *)
(** * Properties of the registry and of the handler's answer *)
(* ===================================================================== *)

Section RegistryTheorems.
Context `{Platform}.

Lemma log_received_inv station r err st :
  registry_inv st → registry_inv (log_received station r err st).
Proof. intros [Hl Hr Hv Hs]. by destruct err; split. Qed.

Lemma log_received_gaugeMap station r err st :
  gaugeMap (log_received station r err st) = gaugeMap st.
Proof. by destruct err. Qed.

Lemma run_op_inv st op : registry_inv st → registry_inv (run_op st op).
Proof.
  intros Hinv. destruct op as [field|g lv f|r]; simpl.
  - by apply getGauge_inv.
  - by apply Set_inv.
  - unfold reportHandler. destruct (decodeReport r) as [[vals station] err]. simpl.
    by apply loop_inv, log_received_inv.
Qed.

Lemma run_op_mono st op F g :
  gaugeMap st !! F = Some g → gaugeMap (run_op st op) !! F = Some g.
Proof.
  intros HF. destruct op as [field|g' lv f|r]; simpl.
  - by apply getGauge_mono.
  - by rewrite (proj1 (Set_gaugeMap st g' lv f)).
  - unfold reportHandler. destruct (decodeReport r) as [[vals station] err]. simpl.
    apply loop_mono. by rewrite log_received_gaugeMap.
Qed.

(** C3.  From a well-formed registry, every sequence of operations
    ([getGauge], [Set] through a handle, a whole report) leads to a
    well-formed registry, in which distinct fields have distinct collectors
    and each field's collector is the one registered under its name; no
    field is ever removed and no field's handle ever changes, so the key set
    only grows.  [getGauge] itself returns the existing handle and changes
    nothing when the field is present; when it is absent and the call
    returns, the handle is a new address and the map has exactly the one
    entry more; when the call panics the map is as before. *)
Theorem registry_invariant_preserved (ops : list Op) (st : State) :
  registry_inv st →
  registry_inv (run_ops ops st) ∧
  (∀ F1 F2 g, gaugeMap (run_ops ops st) !! F1 = Some g →
              gaugeMap (run_ops ops st) !! F2 = Some g → F1 = F2) ∧
  dom (gaugeMap st) ⊆ dom (gaugeMap (run_ops ops st)) ∧
  (∀ F g, gaugeMap st !! F = Some g → gaugeMap (run_ops ops st) !! F = Some g) ∧
  (∀ F, match getGauge F st with
        | Returned g st' =>
            match gaugeMap st !! F with
            | Some g0 => g = g0 ∧ st' = st
            | None => heap st !! g = None ∧
                      gaugeMap st' = <[F := g]> (gaugeMap st) ∧
                      size (gaugeMap st') = S (size (gaugeMap st))
            end
        | Panicked _ st' => gaugeMap st !! F = None ∧ gaugeMap st' = gaugeMap st
        end).
Proof.
  intros Hinv.
  assert (Hmono : ∀ F g, gaugeMap st !! F = Some g →
                         gaugeMap (run_ops ops st) !! F = Some g).
  { unfold run_ops. revert st Hinv. induction ops as [|op ops IH]; intros st Hinv F g HF;
      simpl; [done|].
    apply IH; [by apply run_op_inv|by apply run_op_mono]. }
  assert (Hinv' : registry_inv (run_ops ops st)).
  { clear Hmono. unfold run_ops. revert st Hinv.
    induction ops as [|op ops IH]; intros st Hinv; simpl; [done|].
    by apply IH, run_op_inv. }
  split; [done|]. split.
  { intros F1 F2 g. by apply registry_inv_handles_inj. }
  split.
  { intros F [g HF]%elem_of_dom. apply elem_of_dom. eauto. }
  split; [done|].
  intros F. destruct (gaugeMap st !! F) as [g0|] eqn:HF.
  - by rewrite (getGauge_present _ _ _ HF).
  - destruct (getGauge_absent _ _ HF) as [(_ & msg & ->)|[(_ & _ & msg & ->)|(Hval & Hreg & ->)]];
      simpl; try done.
    split; [apply fresh_not_live|]. split; [done|].
    by apply map_size_insert_None.
Qed.

(** C10.  In a well-formed registry, [getGauge] on a field whose metric
    name the client rejects does not return: [MustRegister] panics, and the
    panic leaves [gaugeMap.m], the registered collectors and the log as they
    were, with no entry for the field. *)
Theorem getGauge_invalid_name_panics (F : string) (st : State) :
  registry_inv st →
  IsValidMetricName ("awp_" +:+ F) = false →
  ∃ msg st', getGauge F st = Panicked msg st' ∧
             gaugeMap st' = gaugeMap st ∧
             registered st' = registered st ∧
             logged st' = logged st ∧
             gaugeMap st' !! F = None.
Proof.
  intros Hinv Hbad.
  assert (HF : gaugeMap st !! F = None).
  { destruct (gaugeMap st !! F) as [g|] eqn:HF; [|done].
    pose proof (inv_valid _ Hinv _ _ HF). congruence. }
  destruct (getGauge_absent _ _ HF) as [(_ & msg & Heq)|[(Hv & _)|(Hv & _)]];
    [|congruence..].
  exists msg. eexists. split; [exact Heq|]. by simpl.
Qed.

(** C6, as the code has it.  When [getGauge] creates the collector of a
    field, its metric name is ["awp_"] followed by the field name byte for
    byte (its case is kept), its help string is ["AWP sensor value for "]
    followed by the field name, its one label is [station], and it has no
    value yet. *)
Theorem getGauge_creates_named (F : string) (st : State) (g : loc) (st' : State) :
  gaugeMap st !! F = None →
  getGauge F st = Returned g st' →
  heap st' !! g =
    Some (mkGaugeVec ("awp_" +:+ F) ("AWP sensor value for " +:+ F) ["station"] ∅) ∧
  registered st' !! ("awp_" +:+ F) = Some g ∧
  gaugeMap st' !! F = Some g.
Proof.
  intros HF Hget.
  destruct (getGauge_absent _ _ HF) as [(_ & msg & Heq)|[(_ & _ & msg & Heq)|(Hval & Hreg & Heq)]];
    rewrite Heq in Hget; try discriminate.
  injection Hget as <- <-. simpl. by rewrite !lookup_insert_eq.
Qed.



(** C5, on the code.  With [-mirror-https] and the mirror port left at the
    flag's default, 8000, the scheme is [https] and the port stays 8000:
    the port is replaced by 443 only when it is 80. *)
Theorem mirror_https_keeps_default_port (host : string) (vals : Values) :
  let flags := {| port := port defaultFlags; verbose := verbose defaultFlags;
                  mirrorHost := host; mirrorPort := mirrorPort defaultFlags;
                  mirrorPath := mirrorPath defaultFlags; mirrorHTTPS := true |} in
  mirrorPort defaultFlags = 8000%Z ∧
  mirrorSchemePort flags = ("https", 8000%Z) ∧
  Host (mirrorURL flags vals) = host +:+ ":8000" ∧
  mirrorSchemePort {| port := 6255; verbose := false; mirrorHost := host;
                      mirrorPort := 80; mirrorPath := "/data/report";
                      mirrorHTTPS := true |} = ("https", 443%Z).
Proof. by split. Qed.

End RegistryTheorems.

(* ===================================================================== *)
(** * The decoder, the ignored fields, the malformed values, the mirror *)
(* ===================================================================== *)

Section HandlerTheorems.
Context `{Platform}.

(** C2.  A request whose path carries the observations after its first
    ['&'] and that has no standard query decodes to the same values, station
    and error as the request with the part before the ['&'] as its path and
    the part after it as its standard query: the station is the last
    segment of the part before, the values are those of the part after.  In
    particular the request targets
    [/data/report/STATION&tempf=72.5&humidity=45] and
    [/data/report/STATION?tempf=72.5&humidity=45] both decode to the station
    [STATION] and the fields [tempf = "72.5"], [humidity = "45"], with no
    error. *)
Theorem nonconformant_decodes_as_conformant (before after addr : string) :
  str_no "&" before = true →
  after ≠ "" →
  decodeReport (mkRequest (mkURL "" "" (before +:+ String "&" after) false "") addr) =
    decodeReport (mkRequest (mkURL "" "" before false after) addr) ∧
  decodeReport (mkRequest (mkURL "" "" before false after) addr) =
    ((url_ParseQuery after).1, path_Base before, (url_ParseQuery after).2) ∧
  decodeReport (mkRequest (mkURL "" "" before false "") addr) =
    (∅, path_Base before, None) ∧
  url_ParseRequestURI "/data/report/STATION&tempf=72.5&humidity=45" =
    Some (mkURL "" "" "/data/report/STATION&tempf=72.5&humidity=45" false "") ∧
  url_ParseRequestURI "/data/report/STATION?tempf=72.5&humidity=45" =
    Some (mkURL "" "" "/data/report/STATION" false "tempf=72.5&humidity=45") ∧
  decodeReport
    (mkRequest (mkURL "" "" "/data/report/STATION&tempf=72.5&humidity=45" false "") addr) =
    (<["tempf" := ["72.5"]]> (<["humidity" := ["45"]]> ∅), "STATION", None) ∧
  decodeReport
    (mkRequest (mkURL "" "" "/data/report/STATION" false "tempf=72.5&humidity=45") addr) =
    (<["tempf" := ["72.5"]]> (<["humidity" := ["45"]]> ∅), "STATION", None).
Proof.
  intros Hno Hafter.
  assert (Hstd : decodeReport (mkRequest (mkURL "" "" before false after) addr) =
    ((url_ParseQuery after).1, path_Base before, (url_ParseQuery after).2)).
  { unfold decodeReport. simpl.
    rewrite str_eqb_nil, bool_decide_eq_false_2 by done. simpl.
    by destruct (url_ParseQuery after). }
  split; [|split; [done|]].
  { rewrite Hstd. unfold decodeReport. simpl.
    rewrite (Cut_byte_found _ _ _ Hno). by destruct (url_ParseQuery after). }
  split.
  { unfold decodeReport. simpl. by rewrite (Cut_byte_none _ _ Hno). }
  repeat split; by vm_compute.
Qed.

(** C9.  When the request has a standard query that is not empty, the
    values are decoded from it alone and the station is the last segment of
    the whole path, whether or not the path holds a ['&']: the path is not
    cut.  So when the last segment of the path holds the ['&'], the station
    is that segment as it stands, with the ['&'] and what follows it. *)
Theorem standard_query_takes_precedence (r : Request) :
  RawQuery (req_URL r) ≠ "" →
  str_no "&" (Path (req_URL r)) = false →
  decodeReport r =
    ((url_ParseQuery (RawQuery (req_URL r))).1,
     path_Base (Path (req_URL r)),
     (url_ParseQuery (RawQuery (req_URL r))).2) ∧
  ∀ dir seg, Path (req_URL r) = dir +:+ String "/" seg →
             str_no "/" seg = true → seg ≠ "" →
             (decodeReport r).1.2 = seg.
Proof.
  intros Hq _.
  assert (Hd : decodeReport r =
    ((url_ParseQuery (RawQuery (req_URL r))).1, path_Base (Path (req_URL r)),
     (url_ParseQuery (RawQuery (req_URL r))).2)).
  { unfold decodeReport. rewrite str_eqb_nil, bool_decide_eq_false_2 by done.
    simpl. by destruct (url_ParseQuery _). }
  split; [done|]. intros dir seg Hpath Hno Hne.
  rewrite Hd, Hpath. simpl. by apply path_Base_segment.
Qed.

(** The decoder never binds a field to an empty list of values. *)
Lemma decodeReport_nonempty (r : Request) k l :
  (decodeReport r).1.1 !! k = Some l → l ≠ [].
Proof.
  unfold decodeReport. destruct (negb _).
  - destruct (url_ParseQuery (RawQuery (req_URL r))) as [v e] eqn:Hq. simpl.
    replace v with (url_ParseQuery (RawQuery (req_URL r))).1 by by rewrite Hq.
    apply ParseQuery_nonempty.
  - destruct (strings_Cut _ _) as [[p1 q] found].
    destruct (url_ParseQuery q) as [v e] eqn:Hq. simpl.
    replace v with (url_ParseQuery q).1 by by rewrite Hq.
    apply ParseQuery_nonempty.
Qed.

Lemma log_received_untouched k station r err st :
  untouched k st (log_received station r err st).
Proof. by destruct err. Qed.

Lemma reportHandler_result (r : Request) (st : State) :
  let '(vals, station, err) := decodeReport r in
  h_result (reportHandler newResponse r st) =
    reportHandler_loop station (range_order vals) (log_received station r err st) ∧
  h_spawned (reportHandler newResponse r st) = [mkMirrorCall (req_URL r) vals station].
Proof. unfold reportHandler. by destruct (decodeReport r) as [[vals station] err]. Qed.

(** What the handler does with a field [k] the loop passes over: the
    outcome is that of the loop on the other entries, which are the entries
    of the values without [k]; the field's entry, registration and collector
    are as before; the goroutine is given all the values. *)
Lemma passed_over_field (r : Request) (st : State) (k : string) :
  registry_inv st →
  (∀ vv, (decodeReport r).1.1 !! k = Some vv → passed_over (k, vv) = true) →
  let vals := (decodeReport r).1.1 in
  let station := (decodeReport r).1.2 in
  let others := filter (λ p, p.1 ≠ k) (range_order vals) in
  others ≡ₚ map_to_list (delete k vals) ∧
  h_result (reportHandler newResponse r st) =
    reportHandler_loop station others
      (log_received station r (decodeReport r).2 st) ∧
  untouched k st (result_state (h_result (reportHandler newResponse r st))) ∧
  h_spawned (reportHandler newResponse r st) = [mkMirrorCall (req_URL r) vals station].
Proof.
  intros Hinv Hpass. pose proof (reportHandler_result r st) as Hres.
  destruct (decodeReport r) as [[vals station] err]. simpl in *.
  destruct Hres as [Hres Hsp].
  assert (Hloop : reportHandler_loop station (range_order vals)
                    (log_received station r err st) =
                  reportHandler_loop station (filter (λ p, p.1 ≠ k) (range_order vals))
                    (log_received station r err st)).
  { apply loop_filter, Forall_forall. intros [k' vv] Hin%range_order_lookup Hk.
    simpl in Hk. subst k'. by apply Hpass. }
  split; [apply range_order_without|]. split; [congruence|]. split; [|done].
  rewrite Hres, Hloop. eapply untouched_trans; [apply log_received_untouched|].
  apply loop_untouched; [by apply log_received_inv|].
  apply Forall_forall. by intros p [Hp _]%list_elem_of_filter.
Qed.

(** C7.  For a field [k] that matches the Ignored-Field Set without regard
    to case, handling a report leaves the registry entry of [k], its
    registration and its collector as they were, and does what it does for
    the other fields alone; the goroutine started for the mirror is given all
    the decoded values, the values of [k] among them, and the query string the
    mirror builds from them decodes to the same values for [k]. *)
Theorem ignored_field_only_mirrored (flags : Flags) (r : Request) (st : State)
    (k : string) :
  ignored_field k = true →
  registry_inv st →
  let vals := (decodeReport r).1.1 in
  let station := (decodeReport r).1.2 in
  let h := reportHandler newResponse r st in
  untouched k st (result_state (h_result h)) ∧
  h_result h =
    reportHandler_loop station (filter (λ p, p.1 ≠ k) (range_order vals))
      (log_received station r (decodeReport r).2 st) ∧
  ∃ c, h_spawned h = [c] ∧ mc_vals c = vals ∧
       (url_ParseQuery (RawQuery (mirrorURL flags (mc_vals c)))).1 !! k = vals !! k.
Proof.
  intros Hign Hinv vals station h.
  destruct (passed_over_field r st k Hinv) as (_ & Hres & Hun & Hsp).
  { intros vv _. unfold passed_over. simpl. by rewrite ignored_field_contains. }
  split; [done|]. split; [done|].
  eexists. split; [exact Hsp|]. split; [done|]. simpl.
  unfold mirrorURL. destruct (mirrorSchemePort flags) as [scheme p]. simpl.
  rewrite ParseQuery_Encode; [done|].
  unfold vals, decodeReport.
  destruct (negb _).
  - destruct (url_ParseQuery (RawQuery (req_URL r))) as [v e] eqn:Hq. simpl.
    intros k' l. replace v with (url_ParseQuery (RawQuery (req_URL r))).1 by by rewrite Hq.
    apply ParseQuery_nonempty.
  - destruct (strings_Cut _ _) as [[p1 q] found].
    destruct (url_ParseQuery q) as [v e] eqn:Hq. simpl.
    intros k' l. replace v with (url_ParseQuery q).1 by by rewrite Hq.
    apply ParseQuery_nonempty.
Qed.

(** C8.  When the first value of a field [k] of a report is not accepted by
    [strconv.ParseFloat], handling the report leaves the registry entry of
    [k], its registration and its collector as they were, and the outcome of
    the call is exactly that of the loop on the other fields of the report,
    taken in the same order: they are measured as if [k] were not there,
    and the value of [k] causes no panic.  The answer is 204 all the same. *)
Theorem malformed_value_skipped (r : Request) (st : State) (k v0 : string)
    (vs : list string) :
  registry_inv st →
  (decodeReport r).1.1 !! k = Some (v0 :: vs) →
  strconv_ParseFloat v0 = None →
  let vals := (decodeReport r).1.1 in
  let station := (decodeReport r).1.2 in
  let h := reportHandler newResponse r st in
  let others := filter (λ p, p.1 ≠ k) (range_order vals) in
  others ≡ₚ map_to_list (delete k vals) ∧
  h_result h =
    reportHandler_loop station others (log_received station r (decodeReport r).2 st) ∧
  untouched k st (result_state (h_result h)) ∧
  rw_status (h_response h) = 204%Z.
Proof.
  intros Hinv Hk Hbad vals station h others.
  destruct (passed_over_field r st k Hinv) as (Hperm & Hres & Hun & _).
  { intros vv Hvv. rewrite Hk in Hvv. injection Hvv as <-.
    unfold passed_over. simpl. rewrite bool_decide_eq_true_2 by done.
    by rewrite orb_true_r. }
  split; [done|]. split; [done|]. split; [done|].
  unfold h, reportHandler. by destruct (decodeReport r) as [[? ?] ?].
Qed.

(** C1, as the code has it.  With a mirror host configured and a URL that
    [http.NewRequest] accepts, the one goroutine that the handler starts for
    a report sends one [GET] with the header
    [User-Agent: awp-exporter-mirror/1.0], whose target is the scheme,
    ["://"], the host flag with [":"] and the port, the path flag without a
    final ['/'], and, when the report has values, ['?'] and the values
    encoded with their keys in sorted order, which decode to the values of
    the report.  Host and path are written as [URL.String] writes them:
    escaped where a byte needs it, the path ["*"] kept, and a ['/'] put
    before a path that is not empty and does not start with one; when
    neither needs escaping and the path is empty or starts with ['/'] the
    target is these parts as they are.  The station is not part of the
    target: [mirrorRequest] sends the same request for every station. *)
Theorem mirror_request_target (flags : Flags) (Do : OutboundRequest → DoResult)
    (r : Request) (st : State) :
  mirrorHost flags ≠ "" →
  http_NewRequest_err (url_String (mirrorURL flags (decodeReport r).1.1)) = None →
  let V := (decodeReport r).1.1 in
  let hostport := mirrorHost flags +:+ ":" +:+ fmt_d (mirrorSchemePort flags).2 in
  let p := strings_TrimSuffix (mirrorPath flags) "/" in
  let ep := if String.eqb p "*" then "*" else escape p encodePath in
  let query := if String.eqb (url_Values_Encode V) "" then ""
               else "?" +:+ url_Values_Encode V in
  let target := (mirrorSchemePort flags).1 +:+ "://" +:+ escape hostport encodeHost +:+
                (if negb (String.eqb ep "") && negb (strings_HasPrefix ep "/")
                 then "/" else "") +:+ ep +:+ query in
  let sent := Some {| out_method := "GET"; out_url := target;
                      out_header := [("User-Agent", "awp-exporter-mirror/1.0")] |} in
  m_sent <$> (serve flags Do r st).2 = [sent] ∧
  (∀ originalURL station, m_sent (mirrorRequest flags Do originalURL V station) = sent) ∧
  url_ParseQuery (url_Values_Encode V) = (V, None) ∧
  (plain encodeHost (mirrorHost flags) = true → plain encodePath p = true →
   p = "" ∨ strings_HasPrefix p "/" = true →
   target = (mirrorSchemePort flags).1 +:+ "://" +:+ hostport +:+ p +:+ query).
Proof.
  intros Hhost Hnew V hostport p ep query target sent.
  assert (Hscheme : (mirrorSchemePort flags).1 ≠ "").
  { unfold mirrorSchemePort. by destruct (mirrorHTTPS flags). }
  assert (Hhp : hostport ≠ "").
  { unfold hostport. by destruct (mirrorHost flags). }
  assert (Hurl : url_String (mirrorURL flags V) = target).
  { unfold mirrorURL. destruct (mirrorSchemePort flags) as [scheme port0] eqn:Hsp.
    apply url_String_host; done. }
  assert (Hsent : ∀ u s, m_sent (mirrorRequest flags Do u V s) = sent).
  { intros u s. unfold mirrorRequest.
    rewrite str_eqb_nil, bool_decide_eq_false_2 by done. fold V in Hnew. rewrite Hnew.
    unfold sent. rewrite <- Hurl. by destruct (Do _). }
  split; [|split; [exact Hsent|split]].
  - unfold serve, reportHandler, run_mirror. subst V.
    destruct (decodeReport r) as [[vals station] err]. simpl. simpl in Hsent.
    by rewrite Hsent.
  - apply ParseQuery_Encode. intros k l. apply decodeReport_nonempty.
  - intros Hph Hpp Hslash. rewrite <- Hurl. unfold mirrorURL.
    destruct (mirrorSchemePort flags) as [scheme port0] eqn:Hsp.
    apply url_String_plain; try done.
    unfold plain in *. unfold hostport. rewrite !str_forallb_app, Hph. simpl.
    apply fmt_d_plain.
Qed.

End HandlerTheorems.

(* ===================================================================== *)
(** * The theorems at work on concrete reports *)
(* ===================================================================== *)

Section Examples.
Local Existing Instance examplePlatform.

(** C1, the scenario on the code: the report for [TEST_STATION] with
    [tempf], [humidity] and [PASSKEY] decodes to that station and those
    values, and the one mirror request it causes has the target
    [http://h:8000/data/report?PASSKEY=abc&humidity=45&tempf=72.5], which
    is not the target with [/TEST_STATION] after the path. *)
Lemma mirror_target_omits_station :
  url_ParseRequestURI "/data/report/TEST_STATION?tempf=72.5&humidity=45&PASSKEY=abc" =
    Some (req_URL scenarioRequest) ∧
  decodeReport scenarioRequest = (scenarioVals, "TEST_STATION", None) ∧
  m_sent <$> (serve scenarioFlags sinkOK scenarioRequest initState).2 =
    [Some {| out_method := "GET";
             out_url := "http://h:8000/data/report?PASSKEY=abc&humidity=45&tempf=72.5";
             out_header := [("User-Agent", "awp-exporter-mirror/1.0")] |}] ∧
  m_sent <$> (serve scenarioFlags sinkOK scenarioRequest initState).2 ≠
    [Some {| out_method := "GET";
             out_url := "http://h:8000/data/report/TEST_STATION?PASSKEY=abc&humidity=45&tempf=72.5";
             out_header := [("User-Agent", "awp-exporter-mirror/1.0")] |}].
Proof.
  split; [vm_compute; reflexivity|]. split; [vm_compute; reflexivity|].
  assert (Hsent : m_sent <$> (serve scenarioFlags sinkOK scenarioRequest initState).2 =
    [Some {| out_method := "GET";
             out_url := "http://h:8000/data/report?PASSKEY=abc&humidity=45&tempf=72.5";
             out_header := [("User-Agent", "awp-exporter-mirror/1.0")] |}])
    by (vm_compute; reflexivity).
  split; [exact Hsent|]. rewrite Hsent. discriminate.
Qed.

Lemma mirror_request_target_witness :
  mirrorHost scenarioFlags ≠ "" ∧
  http_NewRequest_err
    (url_String (mirrorURL scenarioFlags (decodeReport scenarioRequest).1.1)) = None ∧
  m_sent <$> (serve scenarioFlags sinkOK scenarioRequest initState).2 =
    [Some {| out_method := "GET";
             out_url := "http://h:8000/data/report?PASSKEY=abc&humidity=45&tempf=72.5";
             out_header := [("User-Agent", "awp-exporter-mirror/1.0")] |}] ∧
  m_sent (mirrorRequest scenarioFlags sinkOK (req_URL scenarioRequest) scenarioVals
            "OTHER_STATION") =
    Some {| out_method := "GET";
            out_url := "http://h:8000/data/report?PASSKEY=abc&humidity=45&tempf=72.5";
            out_header := [("User-Agent", "awp-exporter-mirror/1.0")] |} ∧
  url_ParseQuery "PASSKEY=abc&humidity=45&tempf=72.5" = (scenarioVals, None).
Proof.
  pose proof (mirror_request_target scenarioFlags sinkOK scenarioRequest initState
                ltac:(discriminate) ltac:(reflexivity)) as (Hsent & Hany & Hdec & _).
  split; [discriminate|]. split; [reflexivity|].
  split; [exact Hsent|]. split; [|exact Hdec].
  exact (Hany (req_URL scenarioRequest) "OTHER_STATION").
Defined.

Lemma nonconformant_decodes_as_conformant_witness :
  str_no "&" "/data/report/STATION" = true ∧
  "tempf=72.5&humidity=45" ≠ "" ∧
  decodeReport (mkRequest (mkURL "" "" "/data/report/STATION&tempf=72.5&humidity=45"
                             false "") "192.0.2.7:51234") =
  decodeReport (mkRequest (mkURL "" "" "/data/report/STATION" false
                             "tempf=72.5&humidity=45") "192.0.2.7:51234").
Proof.
  split; [reflexivity|]. split; [discriminate|].
  exact (proj1 (nonconformant_decodes_as_conformant "/data/report/STATION"
                  "tempf=72.5&humidity=45" "192.0.2.7:51234"
                  ltac:(reflexivity) ltac:(discriminate))).
Defined.

Lemma registry_invariant_preserved_witness :
  registry_inv initState ∧
  dom (gaugeMap initState) ⊆
    dom (gaugeMap (run_ops [OpReport mixedRequest; OpGetGauge "tempf";
                            OpReport scenarioRequest] initState)) ∧
  dom (gaugeMap (run_ops [OpReport mixedRequest; OpGetGauge "tempf";
                          OpReport scenarioRequest] initState)) =
    {["tempf"; "humidity"]}.
Proof.
  split; [apply registry_inv_init|]. split.
  - exact (proj1 (proj2 (proj2
      (registry_invariant_preserved
         [OpReport mixedRequest; OpGetGauge "tempf"; OpReport scenarioRequest]
         initState registry_inv_init)))).
  - vm_compute; reflexivity.
Defined.

(** C6, the convention of the specification on the code: the collector
    created for the field [UV] is named [awp_UV], not [awp_uv]. *)
Lemma getGauge_name_not_lowercased :
  match getGauge "UV" initState with
  | Returned g st' => gv_Name <$> heap st' !! g
  | Panicked _ _ => None
  end = Some "awp_UV" ∧
  match getGauge "UV" initState with
  | Returned g st' => gv_Name <$> heap st' !! g
  | Panicked _ _ => None
  end ≠ Some ("awp_" +:+ str_map lowerByte "UV").
Proof.
  split; [vm_compute; reflexivity|]. vm_compute. discriminate.
Qed.

Lemma getGauge_creates_named_witness :
  gaugeMap initState !! "UV" = None ∧
  ∃ g st', getGauge "UV" initState = Returned g st' ∧
           heap st' !! g =
             Some (mkGaugeVec "awp_UV" "AWP sensor value for UV" ["station"] ∅).
Proof.
  split; [reflexivity|].
  eexists _, _. split; [reflexivity|].
  exact (proj1 (getGauge_creates_named "UV" initState _ _ eq_refl eq_refl)).
Defined.



(** The handler's call can end in a panic after it has set the status: a
    station that is not valid UTF-8 makes [WithLabelValues] panic once the
    collector of the first measured field exists. *)
Example reportHandler_can_panic :
  url_ParseRequestURI "/data/report/%ff?tempf=72.5" = Some (req_URL badStationRequest) ∧
  has_returned (h_result (reportHandler newResponse badStationRequest initState)) = false ∧
  rw_status (h_response (reportHandler newResponse badStationRequest initState)) = 204%Z ∧
  dom (gaugeMap (result_state
         (h_result (reportHandler newResponse badStationRequest initState)))) = {["tempf"]}.
Proof. repeat split; vm_compute; reflexivity. Qed.

Lemma ignored_field_only_mirrored_witness :
  ignored_field "PassKey" = true ∧
  registry_inv initState ∧
  (decodeReport mixedRequest).1.1 !! "PassKey" = Some ["abc"] ∧
  untouched "PassKey" initState
    (result_state (h_result (reportHandler newResponse mixedRequest initState))) ∧
  ∃ c, h_spawned (reportHandler newResponse mixedRequest initState) = [c] ∧
       mc_vals c !! "PassKey" = Some ["abc"].
Proof.
  pose proof (ignored_field_only_mirrored scenarioFlags mixedRequest initState "PassKey"
                ltac:(reflexivity) registry_inv_init) as (Hun & _ & c & Hc & Hvals & _).
  split; [reflexivity|]. split; [apply registry_inv_init|].
  split; [vm_compute; reflexivity|]. split; [exact Hun|].
  exists c. split; [exact Hc|]. rewrite Hvals. vm_compute; reflexivity.
Defined.

Lemma malformed_value_skipped_witness :
  registry_inv initState ∧
  (decodeReport mixedRequest).1.1 !! "windspeedmph" = Some ["N/A"] ∧
  strconv_ParseFloat "N/A" = None ∧
  untouched "windspeedmph" initState
    (result_state (h_result (reportHandler newResponse mixedRequest initState))) ∧
  dom (gaugeMap (result_state (h_result (reportHandler newResponse mixedRequest initState)))) =
    {["tempf"; "humidity"]} ∧
  has_returned (h_result (reportHandler newResponse mixedRequest initState)) = true.
Proof.
  pose proof (malformed_value_skipped mixedRequest initState "windspeedmph" "N/A" []
                registry_inv_init ltac:(vm_compute; reflexivity) ltac:(reflexivity))
    as (_ & _ & Hun & _).
  split; [apply registry_inv_init|]. split; [vm_compute; reflexivity|]. split; [reflexivity|].
  split; [exact Hun|]. split; vm_compute; reflexivity.
Defined.

Lemma standard_query_takes_precedence_witness :
  RawQuery (req_URL bothRequest) ≠ "" ∧
  str_no "&" (Path (req_URL bothRequest)) = false ∧
  decodeReport bothRequest = (<["tempf" := ["72.5"]]> ∅, "ST&x=1", None).
Proof.
  pose proof (standard_query_takes_precedence bothRequest
                ltac:(discriminate) ltac:(reflexivity)) as [Hd _].
  split; [discriminate|]. split; [reflexivity|].
  rewrite Hd. vm_compute; reflexivity.
Defined.

(** The two name-validation schemes of the client differ on a name with a
    ['-']: the legacy scheme rejects it, the UTF-8 scheme accepts it; both
    reject a name that is not valid UTF-8. *)
Example metric_name_schemes :
  IsValidLegacyMetricName "awp_wind-speed" = false ∧
  IsValidUTF8MetricName "awp_wind-speed" = true ∧
  IsValidLegacyMetricName ("awp_" +:+ String "255" "") = false ∧
  IsValidUTF8MetricName ("awp_" +:+ String "255" "") = false.
Proof. repeat split. Qed.

Lemma getGauge_invalid_name_panics_witness :
  registry_inv initState ∧
  IsValidMetricName ("awp_" +:+ "wind-speed") = false ∧
  ∃ msg st', getGauge "wind-speed" initState = Panicked msg st' ∧
             gaugeMap st' = gaugeMap initState ∧
             registered st' = registered initState ∧
             logged st' = logged initState ∧
             gaugeMap st' !! "wind-speed" = None.
Proof.
  split; [apply registry_inv_init|]. split; [reflexivity|].
  exact (getGauge_invalid_name_panics "wind-speed" initState registry_inv_init eq_refl).
Defined.

End Examples.

(* ===================================================================== *)
(** * What a report does to the collectors *)
(* ===================================================================== *)

Section Collectors.
Context `{Platform}.

(** The two ways [WithLabelValues(lv).Set(f)] can go. *)
Lemma Set_cases st g lv f :
  match WithLabelValues_Set g lv f st with
  | Returned _ st' =>
      utf8_ValidString lv = true ∧
      ∃ vec, heap st !! g = Some vec ∧
             st' = set_heap <[g := mkGaugeVec (gv_Name vec) (gv_Help vec)
                                    (gv_labelNames vec) (<[lv := f]> (gv_metrics vec))]> st
  | Panicked _ st' =>
      st' = st ∧ (heap st !! g = None ∨ utf8_ValidString lv = false)
  end.
Proof.
  unfold WithLabelValues_Set. destruct (heap st !! g) as [vec|]; [|by auto].
  destruct (utf8_ValidString lv); simpl; [|by auto]. split; [done|]. by exists vec.
Qed.

Lemma station_step_heap S st st' : heap st' = heap st → station_step S st st'.
Proof.
  intros Hh. split.
  - intros g vec Hg. exists vec. by rewrite Hh.
  - intros g vec' Hnone Hsome. congruence.
Qed.

Lemma station_step_refl S st : station_step S st st.
Proof. by apply station_step_heap. Qed.

Lemma station_step_trans S st1 st2 st3 :
  station_step S st1 st2 → station_step S st2 st3 → station_step S st1 st3.
Proof.
  intros [Hold1 Hnew1] [Hold2 Hnew2]. split.
  - intros g vec Hg. destruct (Hold1 _ _ Hg) as (v2 & Hg2 & Hn & Hh & Hl & Hm).
    destruct (Hold2 _ _ Hg2) as (v3 & Hg3 & Hn' & Hh' & Hl' & Hm').
    exists v3. repeat split; try congruence.
    intros S' HS. by rewrite Hm', Hm.
  - intros g vec3 Hnone Hsome. destruct (heap st2 !! g) as [v2|] eqn:Hg2.
    + destruct (Hnew1 _ _ Hnone Hg2) as ((F & Hn & Hh & Hl) & Hm).
      destruct (Hold2 _ _ Hg2) as (v3 & Hg3 & Hn' & Hh' & Hl' & Hm').
      assert (v3 = vec3) as -> by congruence. split.
      * exists F. unfold created_for. repeat split; congruence.
      * intros S' HS. by rewrite Hm', Hm.
    + exact (Hnew2 _ _ Hg2 Hsome).
Qed.

Lemma getGauge_station_step S st field :
  station_step S st (result_state (getGauge field st)).
Proof.
  destruct (gaugeMap st !! field) as [g|] eqn:Hg.
  { rewrite (getGauge_present _ _ _ Hg). apply station_step_refl. }
  assert (Hstep : station_step S st
            (set_heap <[fresh (dom (heap st)) :=
               mkGaugeVec ("awp_" +:+ field) ("AWP sensor value for " +:+ field)
                 ["station"] ∅]> st)).
  { split; simpl.
    - intros g vec Hvec. exists vec. rewrite lookup_insert_ne; [done|].
      intros <-. by rewrite fresh_not_live in Hvec.
    - intros g vec' Hnone Hsome.
      destruct (decide (fresh (dom (heap st)) = g)) as [<-|Hne].
      + rewrite lookup_insert_eq in Hsome. injection Hsome as <-. split.
        * by exists field.
        * intros S' _. apply lookup_empty.
      + rewrite lookup_insert_ne in Hsome by done. congruence. }
  destruct (getGauge_absent _ _ Hg) as [(_ & msg & ->)|[(_ & _ & msg & ->)|(Hval & Hreg & ->)]];
    exact Hstep.
Qed.

Lemma Set_station_step S st g f :
  station_step S st (result_state (WithLabelValues_Set g S f st)).
Proof.
  pose proof (Set_cases st g S f) as Hc.
  destruct (WithLabelValues_Set g S f st) as [[] st'|msg st']; simpl.
  - destruct Hc as (_ & vec & Hvec & ->). split; simpl.
    + intros g' vec' Hg'. destruct (decide (g = g')) as [<-|Hne].
      * rewrite lookup_insert_eq. eexists. split; [done|]. simpl.
        assert (vec' = vec) as -> by congruence. repeat split.
        intros S' HS. by rewrite lookup_insert_ne.
      * rewrite lookup_insert_ne by done. by exists vec'.
    + intros g' vec' Hnone Hsome. destruct (decide (g = g')) as [<-|Hne]; [congruence|].
      rewrite lookup_insert_ne in Hsome by done. congruence.
  - destruct Hc as [-> _]. apply station_step_refl.
Qed.

Lemma loop_station_step S kvs st :
  station_step S st (result_state (reportHandler_loop S kvs st)).
Proof.
  revert st. induction kvs as [|[k vv] rest IH]; intros st; simpl.
  { apply station_step_refl. }
  destruct (slices_Contains _ _); [apply IH|].
  destruct vv as [|v0 vv]; [apply station_step_refl|].
  destruct (strconv_ParseFloat v0) as [f|]; [|apply IH].
  rewrite measure_cases.
  pose proof (getGauge_station_step S st k) as H1.
  destruct (getGauge k st) as [g st1|msg st1]; [|done]. simpl in H1.
  pose proof (Set_station_step S st1 g f) as H2.
  destruct (WithLabelValues_Set g S f st1) as [[] st2|msg st2]; simpl in H2.
  - eapply station_step_trans; [done|]. eapply station_step_trans; [done|]. apply IH.
  - by eapply station_step_trans.
Qed.

Lemma log_received_station_step S station r err st :
  station_step S st (log_received station r err st).
Proof. apply station_step_heap. by destruct err. Qed.

Lemma station_step_descriptors S st st' :
  descriptors_inv st → station_step S st st' → descriptors_inv st'.
Proof.
  intros Hd [Hold Hnew] g vec' Hg. destruct (heap st !! g) as [vec|] eqn:Hvec.
  - destruct (Hold _ _ Hvec) as (v & Hv & Hn & Hh & Hl & _).
    assert (v = vec') as -> by congruence.
    destruct (Hd _ _ Hvec) as (F & Hn' & Hh' & Hl'). exists F.
    unfold created_for. repeat split; congruence.
  - by destruct (Hnew _ _ Hvec Hg).
Qed.

End Collectors.

(* ===================================================================== *)
(** * What a report measures *)
(* ===================================================================== *)

Section Measures.
Context `{Platform}.

Lemma measured_passed_over (vals : Values) k vv :
  vals !! k = Some vv → vv ≠ [] →
  passed_over (k, vv) = bool_decide (measured_value vals k = None).
Proof.
  intros Hk Hne. unfold passed_over, measured_value. rewrite Hk. simpl.
  destruct vv as [|v0 vv]; [done|].
  by destruct (slices_Contains _ _).
Qed.

Lemma untouched_gauge_value k st st' S :
  untouched k st st' → gauge_value st' k S = gauge_value st k S.
Proof.
  intros (Hg & _ & Hh). unfold gauge_value. rewrite Hg.
  destruct (gaugeMap st !! k) as [g|] eqn:Hk; [|done]. simpl. by rewrite (Hh _ eq_refl).
Qed.

(** After a loop that returned, every entry that was not passed over has
    its number in the collector of its field, for the station of the report. *)
Lemma loop_measured S kvs st st' :
  registry_inv st → NoDup kvs.*1 →
  reportHandler_loop S kvs st = Returned tt st' →
  ∀ k vv, (k, vv) ∈ kvs → passed_over (k, vv) = false →
  ∃ v0 f, head vv = Some v0 ∧ strconv_ParseFloat v0 = Some f ∧
          gauge_value st' k S = Some f.
Proof.
  revert st. induction kvs as [|[k0 vv0] rest IH]; intros st Hinv Hnd Hloop k vv Hin Hpass.
  { by apply elem_of_nil in Hin. }
  rewrite fmap_cons in Hnd. apply NoDup_cons in Hnd as [Hk0 Hnd]. simpl in Hk0.
  simpl in Hloop. unfold passed_over in Hpass.
  destruct (slices_Contains ignoredKeys (strings_ToUpper unicode_ToUpper k0)) eqn:Hign0.
  { apply elem_of_cons in Hin as [[= -> ->]|Hin].
    - simpl in Hpass. by rewrite Hign0 in Hpass.
    - by eapply IH. }
  destruct vv0 as [|v0 vv0']; [done|].
  destruct (strconv_ParseFloat v0) as [f0|] eqn:Hf0.
  2:{ apply elem_of_cons in Hin as [[= -> ->]|Hin].
      - simpl in Hpass. by rewrite Hign0, Hf0 in Hpass.
      - by eapply IH. }
  rewrite measure_cases in Hloop.
  pose proof (getGauge_inv st k0 Hinv) as Hinv1.
  destruct (getGauge k0 st) as [g st1|] eqn:Hget; [|done]. simpl in Hinv1.
  apply getGauge_returned in Hget.
  pose proof (Set_inv st1 g S f0 Hinv1) as Hinv2.
  pose proof (Set_cases st1 g S f0) as Hset.
  destruct (WithLabelValues_Set g S f0 st1) as [[] st2|]; [|done]. simpl in Hinv2.
  destruct Hset as (_ & vec & Hvec & Hst2).
  apply elem_of_cons in Hin as [[= -> ->]|Hin]; [|by eapply IH].
  exists v0, f0. split; [done|]. split; [done|].
  assert (Hrest : Forall (λ p, p.1 ≠ k0) rest).
  { apply Forall_forall. intros [k' vv'] Hin' Heq. simpl in Heq. subst k'.
    apply Hk0. apply list_elem_of_fmap. by exists (k0, vv'). }
  pose proof (loop_untouched S k0 rest st2 Hinv2 Hrest) as Hun.
  rewrite Hloop in Hun. simpl in Hun.
  rewrite (untouched_gauge_value _ _ _ S Hun). unfold gauge_value.
  subst st2. simpl. rewrite Hget. simpl. rewrite lookup_insert_eq. simpl.
  by rewrite lookup_insert_eq.
Qed.

(** The loop adds no field but those of the entries it does not pass over. *)
Lemma loop_domain S kvs st k :
  is_Some (gaugeMap (result_state (reportHandler_loop S kvs st)) !! k) →
  is_Some (gaugeMap st !! k) ∨ ∃ vv, (k, vv) ∈ kvs ∧ passed_over (k, vv) = false.
Proof.
  revert st. induction kvs as [|[k0 vv0] rest IH]; intros st Hk; simpl in Hk; [by left|].
  assert (Hlater : (is_Some (gaugeMap st !! k) ∨
                    ∃ vv, (k, vv) ∈ rest ∧ passed_over (k, vv) = false) →
                   is_Some (gaugeMap st !! k) ∨
                   ∃ vv, (k, vv) ∈ (k0, vv0) :: rest ∧ passed_over (k, vv) = false).
  { intros [?|(vv & Hin & Hp)]; [by left|]. right. exists vv. split; [by right|done]. }
  unfold passed_over.
  destruct (slices_Contains ignoredKeys (strings_ToUpper unicode_ToUpper k0)) eqn:Hign0.
  { by apply Hlater, IH. }
  destruct vv0 as [|v0 vv0']; [by left|].
  destruct (strconv_ParseFloat v0) as [f0|] eqn:Hf0; [|by apply Hlater, IH].
  assert (Hhere : passed_over (k0, v0 :: vv0') = false).
  { unfold passed_over. simpl. by rewrite Hign0, Hf0. }
  assert (Hget : ∀ st1, st1 = result_state (getGauge k0 st) →
            is_Some (gaugeMap st1 !! k) →
            is_Some (gaugeMap st !! k) ∨
            ∃ vv, (k, vv) ∈ (k0, v0 :: vv0') :: rest ∧ passed_over (k, vv) = false).
  { intros st1 -> Hs. destruct (decide (k = k0)) as [->|Hne].
    - right. exists (v0 :: vv0'). split; [by left|done].
    - left. destruct (gaugeMap st !! k0) as [g0|] eqn:Hg0.
      + by rewrite (getGauge_present _ _ _ Hg0) in Hs.
      + destruct (getGauge_absent _ _ Hg0)
          as [(_ & msg & Heq)|[(_ & _ & msg & Heq)|(_ & _ & Heq)]];
          rewrite Heq in Hs; simpl in Hs; try done.
        by rewrite lookup_insert_ne in Hs. }
  rewrite measure_cases in Hk.
  destruct (getGauge k0 st) as [g st1|msg st1] eqn:Hgg; simpl in Hget.
  2:{ by apply (Hget st1). }
  pose proof (Set_gaugeMap st1 g S f0) as [Hgm _].
  destruct (WithLabelValues_Set g S f0 st1) as [[] st2|msg st2]; simpl in Hgm.
  - apply IH in Hk as [Hk|Hk]; [|by apply Hlater; right].
    rewrite Hgm in Hk. by apply (Hget st1).
  - simpl in Hk. rewrite Hgm in Hk. by apply (Hget st1).
Qed.

(** The loop returns when the station is valid UTF-8 and every field it
    measures has a metric name the client accepts. *)
Lemma loop_returns S kvs st :
  registry_inv st → utf8_ValidString S = true →
  Forall (λ p, p.2 ≠ [] ∧
               (passed_over p = false → IsValidMetricName ("awp_" +:+ p.1) = true)) kvs →
  has_returned (reportHandler_loop S kvs st) = true.
Proof.
  intros Hinv HS. revert st Hinv.
  induction kvs as [|[k0 vv0] rest IH]; intros st Hinv Hall; simpl; [done|].
  apply Forall_cons in Hall as [[Hne Hvalid] Hall]. simpl in Hne, Hvalid.
  unfold passed_over in Hvalid. simpl in Hvalid.
  destruct (slices_Contains ignoredKeys (strings_ToUpper unicode_ToUpper k0)); [by apply IH|].
  destruct vv0 as [|v0 vv0']; [done|].
  destruct (strconv_ParseFloat v0) as [f0|]; [|by apply IH].
  simpl in Hvalid. specialize (Hvalid eq_refl).
  rewrite measure_cases.
  pose proof (getGauge_inv st k0 Hinv) as Hinv1.
  destruct (getGauge k0 st) as [g st1|msg st1] eqn:Hget.
  - simpl in Hinv1. apply getGauge_returned in Hget.
    pose proof (Set_inv st1 g S f0 Hinv1) as Hinv2.
    pose proof (Set_cases st1 g S f0) as Hset.
    destruct (WithLabelValues_Set g S f0 st1) as [[] st2|msg st2].
    + by apply IH.
    + destruct Hset as [_ [Hnone|Hbad]]; [|congruence].
      destruct (inv_live _ Hinv1 _ _ Hget) as (vec & Hvec & _). congruence.
  - exfalso. destruct (gaugeMap st !! k0) as [g0|] eqn:Hg0.
    { by rewrite (getGauge_present _ _ _ Hg0) in Hget. }
    destruct (getGauge_absent _ _ Hg0)
      as [(Hbad & _)|[(_ & [g' Hreg] & _)|(_ & _ & Heq)]]; [congruence| |congruence].
    destruct (inv_sole_creator _ Hinv _ _ Hreg) as (F & HF%metric_name_inj & HgF).
    subst F. congruence.
Qed.

(** With a station that is not valid UTF-8 the loop sets no value: it
    returns only when it has passed over every entry, and then the state is
    as before; otherwise it panics at the first entry it would measure,
    having at most created that entry's collector, without a value. *)
Lemma loop_invalid_station S kvs st :
  utf8_ValidString S = false →
  (∀ st', reportHandler_loop S kvs st = Returned tt st' →
          st' = st ∧ Forall (λ p, passed_over p = true) kvs) ∧
  (∀ g vec, heap st !! g = Some vec →
            heap (result_state (reportHandler_loop S kvs st)) !! g = Some vec) ∧
  (∀ g vec', heap st !! g = None →
             heap (result_state (reportHandler_loop S kvs st)) !! g = Some vec' →
             gv_metrics vec' = ∅).
Proof.
  intros HS. revert st. induction kvs as [|[k0 vv0] rest IH]; intros st; simpl.
  { split; [by intros st' [= <-]|]. split; [done|]. intros g vec' Hn Hs. congruence. }
  destruct (slices_Contains ignoredKeys (strings_ToUpper unicode_ToUpper k0)) eqn:Hign0.
  { destruct (IH st) as (Hret & Hrest). split; [|done].
    intros st' Hl. destruct (Hret _ Hl) as [-> Hall]. split; [done|].
    apply Forall_cons. split; [|done]. unfold passed_over. simpl. by rewrite Hign0. }
  destruct vv0 as [|v0 vv0'].
  { split; [done|]. split; [done|]. simpl. intros g vec' Hn Hs. congruence. }
  destruct (strconv_ParseFloat v0) as [f0|] eqn:Hf0.
  2:{ destruct (IH st) as (Hret & Hrest). split; [|done].
      intros st' Hl. destruct (Hret _ Hl) as [-> Hall]. split; [done|].
      apply Forall_cons. split; [|done]. unfold passed_over. simpl.
      by rewrite Hign0, Hf0. }
  rewrite measure_cases.
  pose proof (getGauge_station_step S st k0) as [Hold Hnew].
  assert (Hempty : ∀ g vec', heap st !! g = None →
            heap (result_state (getGauge k0 st)) !! g = Some vec' → gv_metrics vec' = ∅).
  { intros g vec' Hn Hs. destruct (gaugeMap st !! k0) as [g0|] eqn:Hg0.
    - rewrite (getGauge_present _ _ _ Hg0) in Hs. simpl in Hs. congruence.
    - destruct (getGauge_absent _ _ Hg0)
        as [(_ & msg & Heq)|[(_ & _ & msg & Heq)|(_ & _ & Heq)]];
        rewrite Heq in Hs; simpl in Hs;
        (destruct (decide (fresh (dom (heap st)) = g)) as [<-|Hne];
         [rewrite lookup_insert_eq in Hs; by injection Hs as <-
         |rewrite lookup_insert_ne in Hs by done; congruence]). }
  assert (Hkeep : ∀ g vec, heap st !! g = Some vec →
            heap (result_state (getGauge k0 st)) !! g = Some vec).
  { intros g vec Hg. destruct (gaugeMap st !! k0) as [g0|] eqn:Hg0.
    - by rewrite (getGauge_present _ _ _ Hg0).
    - assert (fresh (dom (heap st)) ≠ g).
      { intros <-. by rewrite fresh_not_live in Hg. }
      destruct (getGauge_absent _ _ Hg0)
        as [(_ & msg & Heq)|[(_ & _ & msg & Heq)|(_ & _ & Heq)]];
        rewrite Heq; simpl; by rewrite lookup_insert_ne. }
  destruct (getGauge k0 st) as [g st1|msg st1]; simpl in *.
  - pose proof (Set_cases st1 g S f0) as Hset.
    destruct (WithLabelValues_Set g S f0 st1) as [[] st2|msg st2].
    + destruct Hset as [Hv _]. congruence.
    + destruct Hset as [-> _]. simpl. split; [done|]. by split.
  - split; [done|]. by split.
Qed.

(** The handle the loop gives to a field that had none is an address that
    was not in use before the loop. *)
Lemma loop_new_handle S kvs st k g :
  gaugeMap st !! k = None →
  gaugeMap (result_state (reportHandler_loop S kvs st)) !! k = Some g →
  heap st !! g = None.
Proof.
  revert st. induction kvs as [|[k0 vv0] rest IH]; intros st Hnone Hsome; simpl in Hsome.
  { congruence. }
  destruct (slices_Contains ignoredKeys (strings_ToUpper unicode_ToUpper k0));
    [by eapply IH|].
  destruct vv0 as [|v0 vv0']; [simpl in Hsome; congruence|].
  destruct (strconv_ParseFloat v0) as [f0|]; [|by eapply IH].
  rewrite measure_cases in Hsome.
  assert (Hget : (gaugeMap (result_state (getGauge k0 st)) !! k = None ∨
                  gaugeMap (result_state (getGauge k0 st)) !! k =
                    Some (fresh (dom (heap st)))) ∧
                 ∀ g', heap (result_state (getGauge k0 st)) !! g' = None →
                       heap st !! g' = None).
  { destruct (gaugeMap st !! k0) as [g0|] eqn:Hg0.
    - rewrite (getGauge_present _ _ _ Hg0). by split; [left|].
    - assert (∀ g' vec, <[fresh (dom (heap st)) := vec]> (heap st) !! g' = None →
                        heap st !! g' = None) as Hless.
      { intros g' vec Hl. apply lookup_insert_None in Hl. tauto. }
      destruct (getGauge_absent _ _ Hg0)
        as [(_ & msg & ->)|[(_ & _ & msg & ->)|(_ & _ & ->)]]; simpl;
        (split; [|by eauto]); try by left.
      destruct (decide (k0 = k)) as [->|Hne].
      + right. by rewrite lookup_insert_eq.
      + left. by rewrite lookup_insert_ne. }
  destruct Hget as [Hk Hheap].
  destruct (getGauge k0 st) as [g1 st1|msg st1]; simpl in *.
  2:{ destruct Hk as [Hk|Hk]; [congruence|].
      assert (g = fresh (dom (heap st))) as -> by congruence. apply fresh_not_live. }
  pose proof (Set_gaugeMap st1 g1 S f0) as [Hgm _].
  pose proof (Set_station_step S st1 g1 f0) as [Hold _].
  assert (Hheap2 : ∀ g', heap (result_state (WithLabelValues_Set g1 S f0 st1)) !! g' = None →
                         heap st1 !! g' = None).
  { intros g' Hn. destruct (heap st1 !! g') as [vec|] eqn:Hv; [|done].
    destruct (Hold _ _ Hv) as (vec' & Hv' & _). congruence. }
  destruct (WithLabelValues_Set g1 S f0 st1) as [[] st2|msg st2]; simpl in *.
  - destruct Hk as [Hk|Hk].
    + apply Hheap, Hheap2. eapply IH; [|exact Hsome]. by rewrite Hgm.
    + rewrite <- Hgm in Hk.
      pose proof (loop_mono S rest st2 k _ Hk) as Hm.
      assert (g = fresh (dom (heap st))) as -> by congruence. apply fresh_not_live.
  - rewrite Hgm in Hsome. destruct Hk as [Hk|Hk]; [congruence|].
    assert (g = fresh (dom (heap st))) as -> by congruence. apply fresh_not_live.
Qed.

End Measures.

(* ===================================================================== *)
(** * Reports and the values shown for them *)
(* ===================================================================== *)

Section ReportTheorems.
Context `{Platform}.

Lemma range_order_NoDup (vals : Values) : NoDup (range_order vals).*1.
Proof. rewrite range_order_perm. apply NoDup_fst_map_to_list. Qed.

Lemma measured_value_entry (vals : Values) k f :
  measured_value vals k = Some f →
  ∃ v0 vv, vals !! k = Some (v0 :: vv) ∧ strconv_ParseFloat v0 = Some f ∧
           passed_over (k, v0 :: vv) = false.
Proof.
  unfold measured_value, passed_over. destruct (vals !! k) as [[|v0 vv]|]; try done.
  simpl. destruct (slices_Contains _ _); [done|]. intros Hf.
  exists v0, vv. split; [done|]. split; [done|]. by rewrite Hf.
Qed.

Lemma not_measured_passed_over (r : Request) k :
  measured_value (decodeReport r).1.1 k = None →
  ∀ vv, (decodeReport r).1.1 !! k = Some vv → passed_over (k, vv) = true.
Proof.
  intros Hm vv Hvv.
  rewrite (measured_passed_over _ _ _ Hvv (decodeReport_nonempty _ _ _ Hvv)).
  by apply bool_decide_eq_true.
Qed.

Lemma report_values_aux (r : Request) (st st' : State) k f :
  registry_inv st →
  h_result (reportHandler newResponse r st) = Returned tt st' →
  measured_value (decodeReport r).1.1 k = Some f →
  gauge_value st' k (decodeReport r).1.2 = Some f.
Proof.
  intros Hinv Hret Hm. pose proof (reportHandler_result r st) as Hres.
  destruct (decodeReport r) as [[vals station] err]. simpl in *.
  destruct Hres as [Hres _]. rewrite Hres in Hret.
  destruct (measured_value_entry _ _ _ Hm) as (v0 & vv & Hk & Hf & Hpass).
  destruct (loop_measured station _ _ st' (log_received_inv station r err st Hinv)
              (range_order_NoDup vals) Hret k (v0 :: vv))
    as (v0' & f' & Hhead & Hf' & Hgv); [|done|].
  { by apply range_order_lookup. }
  simpl in Hhead. injection Hhead as <-. congruence.
Qed.

Lemma report_value_unmeasured (r : Request) (st : State) (k S : string) :
  registry_inv st →
  measured_value (decodeReport r).1.1 k = None →
  gauge_value (result_state (h_result (reportHandler newResponse r st))) k S =
  gauge_value st k S.
Proof.
  intros Hinv Hm.
  destruct (passed_over_field r st k Hinv (not_measured_passed_over r k Hm))
    as (_ & _ & Hun & _).
  by apply untouched_gauge_value.
Qed.

Lemma report_value_other_station (r : Request) (st st' : State) (k S : string) :
  registry_inv st →
  h_result (reportHandler newResponse r st) = Returned tt st' →
  S ≠ (decodeReport r).1.2 →
  gauge_value st' k S = gauge_value st k S.
Proof.
  intros Hinv Hret HS.
  pose proof (reportHandler_result r st) as Hres.
  destruct (decodeReport r) as [[vals station] err] eqn:Hdec. simpl in *.
  destruct Hres as [Hres _]. rewrite Hres in Hret.
  set (st0 := log_received station r err st) in *.
  assert (Hinv0 : registry_inv st0) by by apply log_received_inv.
  rewrite <- (untouched_gauge_value k st st0 S (log_received_untouched k station r err st)).
  pose proof (loop_station_step station (range_order vals) st0) as [Hold Hnew].
  pose proof (loop_inv station (range_order vals) st0 Hinv0) as Hinv'.
  rewrite Hret in Hold, Hnew, Hinv'. simpl in *.
  unfold gauge_value. destruct (gaugeMap st0 !! k) as [g|] eqn:Hk; simpl.
  - pose proof (loop_mono station (range_order vals) st0 k g Hk) as Hk'.
    rewrite Hret in Hk'. simpl in Hk'. rewrite Hk'. simpl.
    destruct (inv_live _ Hinv0 _ _ Hk) as (vec & Hvec & _).
    destruct (Hold _ _ Hvec) as (vec' & Hvec' & _ & _ & _ & Hm).
    rewrite Hvec, Hvec'. simpl. by apply Hm.
  - destruct (gaugeMap st' !! k) as [g|] eqn:Hk'; [|done]. simpl.
    assert (heap st0 !! g = None) as Hfresh.
    { eapply (loop_new_handle station (range_order vals) st0 k g Hk).
      by rewrite Hret. }
    destruct (inv_live _ Hinv' _ _ Hk') as (vec' & Hvec' & _).
    rewrite Hvec'. simpl. by apply (Hnew _ _ Hfresh Hvec').
Qed.

(** X1.  When the handler returns on a well-formed registry, the value
    shown afterwards for a field [k] and a station [S] is the number the
    report gives for [k], when [S] is the station of the report and [k] is
    one of its measured fields (not ignored, first value a number); in every
    other case it is the value shown before the report. *)
Theorem report_values (r : Request) (st st' : State) (k S : string) :
  registry_inv st →
  h_result (reportHandler newResponse r st) = Returned tt st' →
  gauge_value st' k S =
    if decide (S = (decodeReport r).1.2) then
      match measured_value (decodeReport r).1.1 k with
      | Some f => Some f
      | None => gauge_value st k S
      end
    else gauge_value st k S.
Proof.
  intros Hinv Hret. destruct (decide (S = (decodeReport r).1.2)) as [->|HS].
  - destruct (measured_value (decodeReport r).1.1 k) as [f|] eqn:Hm.
    + by apply (report_values_aux r st).
    + pose proof (report_value_unmeasured r st k (decodeReport r).1.2 Hinv Hm) as Hu.
      by rewrite Hret in Hu.
  - by apply (report_value_other_station r st).
Qed.

(** X2.  Whatever the report and the state, and whether the handler returns
    or panics: no collector is lost, none changes its name, help or label;
    no value of a station other than the report's is changed; and a
    collector that is new has the descriptor [getGauge] gives to some field
    and no value for any other station. *)
Theorem report_keeps_other_stations (r : Request) (st : State) :
  station_step (decodeReport r).1.2 st
    (result_state (h_result (reportHandler newResponse r st))).
Proof.
  pose proof (reportHandler_result r st) as Hres.
  destruct (decodeReport r) as [[vals station] err]. simpl in *.
  destruct Hres as [-> _].
  eapply station_step_trans; [apply (log_received_station_step _ station r err)|].
  apply loop_station_step.
Qed.

(** X3.  The fields of [gaugeMap.m] after a report are fields it had before
    or measured fields of the report, also when the handler panics; when
    the handler returns on a well-formed registry they are exactly those. *)
Theorem report_adds_only_measured_fields (r : Request) (st : State) :
  registry_inv st →
  (∀ k, is_Some (gaugeMap (result_state (h_result (reportHandler newResponse r st))) !! k) →
        is_Some (gaugeMap st !! k) ∨ is_Some (measured_value (decodeReport r).1.1 k)) ∧
  (∀ st', h_result (reportHandler newResponse r st) = Returned tt st' →
     ∀ k, is_Some (gaugeMap st' !! k) ↔
          is_Some (gaugeMap st !! k) ∨ is_Some (measured_value (decodeReport r).1.1 k)).
Proof.
  intros Hinv.
  assert (Hsub : ∀ k,
    is_Some (gaugeMap (result_state (h_result (reportHandler newResponse r st))) !! k) →
    is_Some (gaugeMap st !! k) ∨ is_Some (measured_value (decodeReport r).1.1 k)).
  { intros k Hk. pose proof (reportHandler_result r st) as Hres.
    pose proof (decodeReport_nonempty r k) as Hne.
    destruct (decodeReport r) as [[vals station] err]. simpl in *.
    destruct Hres as [Hres _]. rewrite Hres in Hk.
    apply loop_domain in Hk as [Hk|(vv & Hin & Hpass)].
    - left. by rewrite log_received_gaugeMap in Hk.
    - right. apply range_order_lookup in Hin.
      rewrite (measured_passed_over _ _ _ Hin (Hne _ Hin)) in Hpass.
      apply bool_decide_eq_false in Hpass.
      by destruct (measured_value vals k). }
  split; [done|]. intros st' Hret k. split.
  - intros Hk. apply Hsub. by rewrite Hret.
  - intros [[g Hk]|[f Hm]].
    + exists g. pose proof (run_op_mono st (OpReport r) k g Hk) as Hmono.
      simpl in Hmono. by rewrite Hret in Hmono.
    + pose proof (report_values_aux r st st' k f Hinv Hret Hm) as Hgv.
      unfold gauge_value in Hgv. by destruct (gaugeMap st' !! k).
Qed.

(** X4.  Two reports of the same station handled one after the other, both
    returning: the value shown for a field and that station is the number
    of the second report when the second measures the field, else the number
    of the first when the first measures it, else the value shown before
    both. *)
Theorem later_report_overwrites (r1 r2 : Request) (st st1 st2 : State) (k : string) :
  registry_inv st →
  h_result (reportHandler newResponse r1 st) = Returned tt st1 →
  h_result (reportHandler newResponse r2 st1) = Returned tt st2 →
  (decodeReport r2).1.2 = (decodeReport r1).1.2 →
  gauge_value st2 k (decodeReport r1).1.2 =
    match measured_value (decodeReport r2).1.1 k,
          measured_value (decodeReport r1).1.1 k with
    | Some f2, _ => Some f2
    | None, Some f1 => Some f1
    | None, None => gauge_value st k (decodeReport r1).1.2
    end.
Proof.
  intros Hinv Hret1 Hret2 Hsame.
  assert (Hinv1 : registry_inv st1).
  { pose proof (run_op_inv st (OpReport r1) Hinv) as Hi. simpl in Hi.
    by rewrite Hret1 in Hi. }
  destruct (measured_value (decodeReport r2).1.1 k) as [f2|] eqn:Hm2.
  { rewrite <- Hsame. by apply (report_values_aux r2 st1). }
  pose proof (report_value_unmeasured r2 st1 k (decodeReport r1).1.2 Hinv1 Hm2) as Hu2.
  rewrite Hret2 in Hu2. simpl in Hu2. rewrite Hu2.
  destruct (measured_value (decodeReport r1).1.1 k) as [f1|] eqn:Hm1.
  { by apply (report_values_aux r1 st). }
  pose proof (report_value_unmeasured r1 st k (decodeReport r1).1.2 Hinv Hm1) as Hu1.
  by rewrite Hret1 in Hu1.
Qed.

(** X5.  On a well-formed registry the handler returns, without a panic,
    when the station of the report is valid UTF-8 and the metric name of
    every field it measures is accepted by the client. *)
Theorem report_returns_when_names_valid (r : Request) (st : State) :
  registry_inv st →
  utf8_ValidString (decodeReport r).1.2 = true →
  (∀ k, is_Some (measured_value (decodeReport r).1.1 k) →
        IsValidMetricName ("awp_" +:+ k) = true) →
  has_returned (h_result (reportHandler newResponse r st)) = true.
Proof.
  intros Hinv HS Hvalid. pose proof (reportHandler_result r st) as Hres.
  pose proof (decodeReport_nonempty r) as Hne.
  destruct (decodeReport r) as [[vals station] err]. simpl in *.
  destruct Hres as [-> _].
  apply loop_returns; [by apply log_received_inv|done|].
  apply Forall_forall. intros [k vv] Hin%range_order_lookup. simpl.
  split; [by eapply Hne|]. intros Hpass. apply Hvalid.
  rewrite (measured_passed_over _ _ _ Hin (Hne _ _ Hin)) in Hpass.
  apply bool_decide_eq_false in Hpass. by destruct (measured_value vals k).
Qed.

(** X6.  When the station of the report is not valid UTF-8 the handler
    sets no value at all: every collector there was is as it was, a
    collector that is new has no value, and the handler returns only when
    the report has no measured field, with the registry as it was. *)
Theorem report_with_invalid_station_sets_nothing (r : Request) (st : State) :
  utf8_ValidString (decodeReport r).1.2 = false →
  (∀ g vec, heap st !! g = Some vec →
     heap (result_state (h_result (reportHandler newResponse r st))) !! g = Some vec) ∧
  (∀ g vec', heap st !! g = None →
     heap (result_state (h_result (reportHandler newResponse r st))) !! g = Some vec' →
     gv_metrics vec' = ∅) ∧
  (has_returned (h_result (reportHandler newResponse r st)) = true →
     (∀ k, measured_value (decodeReport r).1.1 k = None) ∧
     same_registry st (result_state (h_result (reportHandler newResponse r st)))).
Proof.
  intros HS. pose proof (reportHandler_result r st) as Hres.
  pose proof (decodeReport_nonempty r) as Hne.
  destruct (decodeReport r) as [[vals station] err]. simpl in *.
  destruct Hres as [-> _].
  destruct (loop_invalid_station station (range_order vals)
              (log_received station r err st) HS) as (Hret & Hold & Hnew).
  assert (Hheap : heap (log_received station r err st) = heap st) by by destruct err.
  rewrite Hheap in Hold, Hnew. split; [done|]. split; [done|].
  destruct (reportHandler_loop station (range_order vals) (log_received station r err st))
    as [[] st'|msg st']; [|done].
  intros _. destruct (Hret st' eq_refl) as [-> Hall]. split.
  - intros k. destruct (vals !! k) as [vv|] eqn:Hk.
    + rewrite Forall_forall in Hall.
      assert (Hin : (k, vv) ∈ range_order vals) by by apply range_order_lookup.
      specialize (Hall _ Hin). simpl in Hall.
      rewrite (measured_passed_over _ _ _ Hk (Hne _ _ Hk)) in Hall.
      by apply bool_decide_eq_true in Hall.
    + unfold measured_value. by rewrite Hk.
  - simpl. by destruct err.
Qed.

(** X7.  A second [getGauge] on the field returns the handle the first one
    returned and changes nothing, and so does a [getGauge] on any field
    that had a handle before. *)
Theorem getGauge_again (k : string) (st : State) (g : loc) (st' : State) :
  getGauge k st = Returned g st' →
  getGauge k st' = Returned g st' ∧
  ∀ k' g', gaugeMap st !! k' = Some g' → getGauge k' st' = Returned g' st'.
Proof.
  intros Hget. split.
  - by apply getGauge_present, (getGauge_returned st).
  - intros k' g' Hk'. apply getGauge_present.
    pose proof (getGauge_mono st k k' g' Hk') as Hm. by rewrite Hget in Hm.
Qed.

Lemma run_op_descriptors st op : descriptors_inv st → descriptors_inv (run_op st op).
Proof.
  intros Hd. destruct op as [field|g lv f|r]; simpl.
  - eapply station_step_descriptors; [done|]. apply (getGauge_station_step "").
  - eapply station_step_descriptors; [done|]. apply Set_station_step.
  - pose proof (reportHandler_result r st) as Hres.
    destruct (decodeReport r) as [[vals station] err]. simpl in *.
    destruct Hres as [-> _].
    eapply station_step_descriptors; [|apply (loop_station_step station)].
    eapply station_step_descriptors; [done|].
    apply (log_received_station_step station station r err).
Qed.

(** X8.  In every state the process can reach from its start, by any
    sequence of [getGauge], [Set] and reports, the collector of a field [F]
    of [gaugeMap.m] has the name [awp_F], the help
    [AWP sensor value for F] and the one label [station], and it is the
    collector registered under that name. *)
Theorem reachable_collectors_described (ops : list Op) (F : string) (g : loc) :
  gaugeMap (run_ops ops initState) !! F = Some g →
  ∃ metrics,
    heap (run_ops ops initState) !! g =
      Some (mkGaugeVec ("awp_" +:+ F) ("AWP sensor value for " +:+ F) ["station"] metrics) ∧
    registered (run_ops ops initState) !! ("awp_" +:+ F) = Some g.
Proof.
  assert (Hboth : registry_inv (run_ops ops initState) ∧
                  descriptors_inv (run_ops ops initState)).
  { unfold run_ops. generalize registry_inv_init.
    assert (descriptors_inv initState) as Hd0.
    { intros g' vec Hg'. simpl in Hg'. by rewrite lookup_empty in Hg'. }
    revert Hd0. generalize initState.
    induction ops as [|op ops IH]; intros st Hd Hi; simpl; [done|].
    apply IH; [by apply run_op_descriptors|by apply run_op_inv]. }
  destruct Hboth as [Hinv Hd]. intros HF.
  destruct (inv_live _ Hinv _ _ HF) as (vec & Hvec & Hname).
  destruct (Hd _ _ Hvec) as (F' & Hn & Hh & Hl).
  assert (F' = F) as -> by (apply metric_name_inj; congruence).
  exists (gv_metrics vec). split; [|by apply (inv_registered _ Hinv)].
  rewrite Hvec. destruct vec as [n h l m]. simpl in *. by subst.
Qed.

End ReportTheorems.

(* ===================================================================== *)
(** * The station, the query and the mirror *)
(* ===================================================================== *)

Section DecoderTheorems.
Context `{Platform}.

Lemma path_Base_nonempty (p : string) : path_Base p ≠ "".
Proof.
  unfold path_Base. destruct (String.eqb p ""); [done|]. cbv zeta.
  destruct (String.eqb_spec
    match strings_LastIndexByte (stripTrailingSlashes p) "/" with
    | Some i => str_drop (S i) (stripTrailingSlashes p)
    | None => stripTrailingSlashes p
    end "") as [Heq|Hne]; done.
Qed.

Lemma LastIndexByte_rest (s : string) (c : ascii) :
  match strings_LastIndexByte s c with
  | Some i => str_no c (str_drop (S i) s) = true
  | None => str_no c s = true
  end.
Proof.
  unfold str_no. induction s as [|a s IH]; [done|]. simpl.
  destruct (strings_LastIndexByte s c) as [i|]; [done|].
  destruct (byte_eqb a c) eqn:Hac; simpl; [done|]. by rewrite IH.
Qed.

Lemma str_no_drop c n (s : string) : str_no c s = true → str_no c (str_drop n s) = true.
Proof.
  unfold str_no. revert s. induction n as [|n IH]; intros [|a s] Hs; simpl; try done.
  simpl in Hs. apply andb_true_iff in Hs as [_ Hs]. by apply IH.
Qed.

Lemma str_no_strip c (s : string) :
  str_no c s = true → str_no c (stripTrailingSlashes s) = true.
Proof.
  unfold str_no. induction s as [|a s IH]; intros Hs; [done|]. simpl in *.
  apply andb_true_iff in Hs as [Ha Hs].
  destruct (byte_eqb a "/" && String.eqb (stripTrailingSlashes s) ""); [done|].
  simpl. by rewrite Ha, IH.
Qed.

Lemma path_Base_no_slash (p : string) :
  str_no "/" (path_Base p) = true ∨ path_Base p = "/".
Proof.
  unfold path_Base. destruct (String.eqb p ""); [by left|]. cbv zeta.
  pose proof (LastIndexByte_rest (stripTrailingSlashes p) "/") as Hrest.
  destruct (strings_LastIndexByte (stripTrailingSlashes p) "/") as [i|];
    destruct (String.eqb _ ""); auto.
Qed.

Lemma path_Base_no_byte (c : ascii) (p : string) :
  c ≠ "."%char → c ≠ "/"%char → str_no c p = true → str_no c (path_Base p) = true.
Proof.
  intros Hdot Hslash Hp. unfold path_Base.
  assert (∀ d, c ≠ d → str_no c (String d "") = true) as Hone.
  { intros d Hd. unfold str_no. simpl. rewrite byte_eqb_decide.
    rewrite bool_decide_eq_false_2; [done|]. congruence. }
  destruct (String.eqb p ""); [by apply Hone|]. cbv zeta.
  pose proof (str_no_strip c p Hp) as Hs.
  destruct (strings_LastIndexByte (stripTrailingSlashes p) "/") as [i|];
    destruct (String.eqb _ ""); try (by apply Hone); try done.
  by apply str_no_drop.
Qed.

Lemma Index_byte_before (s : string) (c : ascii) i :
  strings_Index s (String c "") = Some i → str_no c (str_take i s) = true.
Proof.
  unfold str_no. revert i. induction s as [|a s IH]; intros i; cbn [strings_Index].
  - rewrite HasPrefix_byte. done.
  - rewrite HasPrefix_byte. case_bool_decide as Hca.
    + by intros [= <-].
    + destruct (strings_Index s (String c "")) as [j|]; [|done]. simpl.
      intros [= <-]. simpl. rewrite byte_eqb_decide.
      rewrite bool_decide_eq_false_2 by congruence. simpl. by apply IH.
Qed.

Lemma Cut_byte_before (s : string) (c : ascii) :
  str_no c (strings_Cut s (String c "")).1.1 = true.
Proof.
  unfold strings_Cut. destruct (strings_Index s (String c "")) as [i|] eqn:Hi; simpl.
  - by apply Index_byte_before.
  - by apply Index_byte_none.
Qed.

(** X9.  The station the handler decodes is never empty; it holds no ['/']
    unless it is ["/"] itself; and when the request has no standard query it
    holds no ['&'] either. *)
Theorem station_is_a_segment (r : Request) :
  (decodeReport r).1.2 ≠ "" ∧
  (str_no "/" (decodeReport r).1.2 = true ∨ (decodeReport r).1.2 = "/") ∧
  (RawQuery (req_URL r) = "" → str_no "&" (decodeReport r).1.2 = true).
Proof.
  unfold decodeReport. destruct (String.eqb_spec (RawQuery (req_URL r)) "") as [Hq|Hq]; simpl.
  - pose proof (Cut_byte_before (Path (req_URL r)) "&") as Hcut.
    destruct (strings_Cut (Path (req_URL r)) "&") as [[urlPath q] found]. simpl in Hcut.
    destruct (url_ParseQuery q) as [vals err]. simpl.
    split; [apply path_Base_nonempty|]. split; [apply path_Base_no_slash|].
    intros _. by apply path_Base_no_byte.
  - destruct (url_ParseQuery (RawQuery (req_URL r))) as [vals err]. simpl.
    split; [apply path_Base_nonempty|]. split; [apply path_Base_no_slash|]. done.
Qed.

Lemma join_amp_empty (items : list string) :
  join_amp items = "" → items = [] ∨ items = [""].
Proof.
  destruct items as [|x [|y rest]]; simpl; [by left|by intros ->; right|].
  intros Heq. pose proof (str_app_cons_nonempty x (join_amp (y :: rest)) "&") as Hne.
  simpl in Hne. by rewrite Heq in Hne.
Qed.

Lemma vals_of_lookup (pairs : list (string * string)) k :
  (foldl (λ m p, values_append m p.1 p.2) ∅ pairs : Values) !! k =
  match vals_of k pairs with
  | [] => None
  | l => Some l
  end.
Proof. rewrite lookup_foldl_append, lookup_empty. by destruct (vals_of k pairs). Qed.

(** X10.  A report whose standard query is a list of pairs, each key and
    value escaped and the pairs joined by ['&'], decodes without error to
    the station of its path and, for every key, to the values the list gives
    to that key, in the order of the list: so the value the loop reads for a
    field that occurs more than once is the first one. *)
Theorem standard_query_of_pairs (pairs : list (string * string)) (path addr k : string) :
  pairs ≠ [] →
  (decodeReport (mkRequest (mkURL "" "" path false (join_amp (enc_pair <$> pairs))) addr)).2
    = None ∧
  (decodeReport (mkRequest (mkURL "" "" path false (join_amp (enc_pair <$> pairs))) addr)).1.2
    = path_Base path ∧
  (decodeReport (mkRequest (mkURL "" "" path false (join_amp (enc_pair <$> pairs))) addr)).1.1
    !! k = match vals_of k pairs with [] => None | l => Some l end ∧
  measured_value
    (decodeReport (mkRequest (mkURL "" "" path false (join_amp (enc_pair <$> pairs))) addr)).1.1
    k = match vals_of k pairs with
        | [] => None
        | v0 :: _ =>
            if slices_Contains ignoredKeys (strings_ToUpper unicode_ToUpper k) then None
            else strconv_ParseFloat v0
        end.
Proof.
  intros Hne.
  assert (Hq : join_amp (enc_pair <$> pairs) ≠ "").
  { intros [Hnil|Hone]%join_amp_empty.
    - by destruct pairs.
    - destruct pairs as [|p pairs]; [done|]. injection Hone as Hp _.
      by apply (enc_pair_nonempty p). }
  assert (Hd : decodeReport
             (mkRequest (mkURL "" "" path false (join_amp (enc_pair <$> pairs))) addr) =
           (foldl (λ m p, values_append m p.1 p.2) ∅ pairs, path_Base path, None)).
  { unfold decodeReport. simpl. rewrite str_eqb_nil, bool_decide_eq_false_2 by done.
    simpl. unfold url_ParseQuery. by rewrite parseQuery_join_pairs. }
  rewrite Hd. simpl. split; [done|]. split; [done|].
  split; [apply vals_of_lookup|].
  unfold measured_value. rewrite vals_of_lookup. by destruct (vals_of k pairs).
Qed.

Lemma parseQuery_step_values m e e' x :
  (parseQuery_step m e x).1 = (parseQuery_step m e' x).1.
Proof.
  unfold parseQuery_step. destruct (strings_Contains x ";"); [done|].
  destruct (String.eqb x ""); [done|].
  destruct (strings_Cut x "=") as [[key value] found].
  destruct (url_QueryUnescape key); [|done]. by destruct (url_QueryUnescape value).
Qed.

Lemma parseQuery_steps_values items m e e' :
  (foldl (λ me x, parseQuery_step me.1 me.2 x) (m, e) items).1 =
  (foldl (λ me x, parseQuery_step me.1 me.2 x) (m, e') items).1.
Proof.
  revert m e e'. induction items as [|x items IH]; intros m e e'; simpl; [done|].
  pose proof (parseQuery_step_values m e e' x) as Hv.
  destruct (parseQuery_step m e x) as [m1 e1], (parseQuery_step m e' x) as [m2 e2].
  simpl in Hv. subst m2. apply IH.
Qed.

Lemma parseQuery_steps_semicolon items m :
  (foldl (λ me x, parseQuery_step me.1 me.2 x) (m, Some InvalidSemicolon) items).2 =
  Some InvalidSemicolon.
Proof.
  revert m. induction items as [|x items IH]; intros m; simpl; [done|].
  assert (Hs : (parseQuery_step m (Some InvalidSemicolon) x).2 = Some InvalidSemicolon).
  { unfold parseQuery_step. destruct (strings_Contains x ";"); [done|].
    destruct (String.eqb x ""); [done|].
    destruct (strings_Cut x "=") as [[key value] found].
    destruct (url_QueryUnescape key); [|done]. by destruct (url_QueryUnescape value). }
  destruct (parseQuery_step m (Some InvalidSemicolon) x) as [m1 e1]. simpl in Hs.
  subst e1. apply IH.
Qed.

(** X11.  When a segment of the standard query holds a [';'], the handler
    goes on with the values of the query without that segment, and the
    error it warns about is the semicolon error, whatever else is wrong with
    the query. *)
Theorem semicolon_segment_dropped (l1 l2 : list string) (x path addr : string) :
  Forall (λ s, str_no "&" s = true) (l1 ++ x :: l2) →
  strings_Contains x ";" = true →
  decodeReport (mkRequest (mkURL "" "" path false (join_amp (l1 ++ x :: l2))) addr) =
    ((url_ParseQuery (join_amp (l1 ++ l2))).1, path_Base path, Some InvalidSemicolon).
Proof.
  intros Hall Hsemi.
  assert (Hx : x ≠ "") by (by intros ->).
  assert (Hq : join_amp (l1 ++ x :: l2) ≠ "").
  { intros [Hnil|Hone]%join_amp_empty.
    - by destruct l1.
    - destruct l1 as [|y [|z l1]]; simplify_eq/=. }
  assert (Hall' : Forall (λ s, str_no "&" s = true) (l1 ++ l2)).
  { apply Forall_app in Hall as [H1 [_ H2]%Forall_cons]. by apply Forall_app. }
  unfold decodeReport. simpl. rewrite str_eqb_nil, bool_decide_eq_false_2 by done.
  simpl. unfold url_ParseQuery. rewrite !parseQuery_join by done.
  rewrite !foldl_app. simpl.
  destruct (foldl (λ me x0, parseQuery_step me.1 me.2 x0) (∅, None) l1) as [m1 e1].
  simpl. unfold parseQuery_step at 2. rewrite Hsemi.
  pose proof (parseQuery_steps_semicolon l2 m1) as He.
  pose proof (parseQuery_steps_values l2 m1 (Some InvalidSemicolon) e1) as Hv.
  destruct (foldl _ (m1, Some InvalidSemicolon) l2) as [m2 e2].
  simpl in *. by subst.
Qed.

(** X12.  Whatever the report, the query string the mirror builds from the
    values handed to its goroutine decodes, without error, to exactly those
    values: the mirror forwards every pair the handler decoded, the ignored
    ones and those that are no numbers included, and nothing else. *)
Theorem mirror_query_round_trip (flags : Flags) (r : Request) (st : State) :
  ∃ c, h_spawned (reportHandler newResponse r st) = [c] ∧
       mc_vals c = (decodeReport r).1.1 ∧
       url_ParseQuery (RawQuery (mirrorURL flags (mc_vals c))) =
         ((decodeReport r).1.1, None).
Proof.
  pose proof (reportHandler_result r st) as Hres.
  pose proof (decodeReport_nonempty r) as Hne.
  destruct (decodeReport r) as [[vals station] err]. simpl in *.
  destruct Hres as [_ ->]. eexists. split; [done|]. split; [done|]. simpl.
  unfold mirrorURL. destruct (mirrorSchemePort flags) as [scheme p]. simpl.
  by apply ParseQuery_Encode.
Qed.

(** X13.  A report whose standard query was written by [Values.Encode] from
    values [v] decodes to [v], and the mirror forwards it with the very
    same query string. *)
Theorem encoded_report_mirrored_verbatim (flags : Flags) (v : Values)
    (path addr : string) :
  (∀ k l, v !! k = Some l → l ≠ []) →
  str_no "&" path = true →
  decodeReport (mkRequest (mkURL "" "" path false (url_Values_Encode v)) addr) =
    (v, path_Base path, None) ∧
  RawQuery (mirrorURL flags
    (decodeReport (mkRequest (mkURL "" "" path false (url_Values_Encode v)) addr)).1.1) =
    url_Values_Encode v.
Proof.
  intros Hne Hpath. pose proof (ParseQuery_Encode v Hne) as Hrt.
  assert (Hd : decodeReport (mkRequest (mkURL "" "" path false (url_Values_Encode v)) addr) =
               (v, path_Base path, None)).
  { unfold decodeReport. simpl.
    destruct (String.eqb_spec (url_Values_Encode v) "") as [Hq|Hq]; simpl.
    - rewrite (Cut_byte_none _ _ Hpath). rewrite Hq in Hrt. by rewrite Hrt.
    - by rewrite Hrt. }
  split; [done|]. rewrite Hd. simpl. unfold mirrorURL.
  by destruct (mirrorSchemePort flags).
Qed.

End DecoderTheorems.

(* ===================================================================== *)
(** * The logger, the start of [main], and the handler of the first version *)
(* ===================================================================== *)

Section StartTheorems.
Context `{Platform}.

(** X14.  Without [-v] the goroutine of the mirror writes nothing to the
    log exactly when mirroring is off, or the request could be made and the
    sink answered with a status below 400; in every other case it writes
    one warning.  With mirroring off it sends nothing either. *)
Theorem mirror_output_without_verbose (flags : Flags) (Do : OutboundRequest → DoResult)
    (originalURL : URL) (vals : Values) (station : string) :
  verbose flags = false →
  (slog_output (initLogger flags)
     (m_logged (mirrorRequest flags Do originalURL vals station)) = [] ↔
   mirrorHost flags = "" ∨
   (http_NewRequest_err (url_String (mirrorURL flags vals)) = None ∧
    ∃ code, Do {| out_method := "GET"; out_url := url_String (mirrorURL flags vals);
                  out_header := [("User-Agent", "awp-exporter-mirror/1.0")] |} =
              DoResponse code ∧ (code < 400)%Z)) ∧
  (slog_output (initLogger flags)
     (m_logged (mirrorRequest flags Do originalURL vals station)) ≠ [] →
   ∃ rec, slog_output (initLogger flags)
            (m_logged (mirrorRequest flags Do originalURL vals station)) = [rec] ∧
          rec_level rec = LevelWarn) ∧
  (mirrorHost flags = "" →
   m_sent (mirrorRequest flags Do originalURL vals station) = None).
Proof.
  intros Hv. unfold initLogger, mirrorRequest. rewrite Hv.
  destruct (String.eqb_spec (mirrorHost flags) "") as [Hh|Hh]; simpl.
  { split; [split; [by left|done]|]. split; done. }
  destruct (http_NewRequest_err (url_String (mirrorURL flags vals))) as [e|]; simpl.
  { split; [split; [done|]|].
    - intros [?|[? _]]; done.
    - split; [|done]. intros _. eexists. split; [done|done]. }
  destruct (Do _) as [e|code] eqn:HDo; simpl.
  { split; [split; [done|]|].
    - intros [?|[_ (code & Hc & _)]]; done.
    - split; [|done]. intros _. eexists. split; [done|done]. }
  destruct (Z.leb_spec 400 code) as [Hc|Hc]; simpl.
  - split; [split; [done|]|].
    + intros [?|[_ (code' & [= <-] & Hlt)]]; [done|lia].
    + split; [|done]. intros _. eexists. split; [done|done].
  - split; [split; [|done]|].
    + intros _. right. split; [done|]. by exists code.
    + split; done.
Qed.

(** X15.  When a mirror host is configured, [main] logs one record at its
    start, with the scheme that [mirrorRequest] will use and the port flag
    as it was given; the port [mirrorRequest] uses differs from the port
    logged exactly when HTTPS is on and the port flag is 80, and then it is
    443. *)
Theorem startup_log_and_mirror_port (flags : Flags) :
  mirrorHost flags ≠ "" →
  s_logged (main_start flags) =
    [mkRecord LevelInfo "Mirroring enabled"
       [("host", StringValue (mirrorHost flags));
        ("port", IntValue (mirrorPort flags));
        ("path", StringValue (mirrorPath flags));
        ("scheme", StringValue (mirrorSchemePort flags).1)]] ∧
  ((mirrorSchemePort flags).2 ≠ mirrorPort flags ↔
   mirrorHTTPS flags = true ∧ mirrorPort flags = 80%Z) ∧
  ((mirrorSchemePort flags).2 ≠ mirrorPort flags → (mirrorSchemePort flags).2 = 443%Z) ∧
  slog_output (s_level (main_start flags)) (s_logged (main_start flags)) =
    s_logged (main_start flags).
Proof.
  intros Hh. unfold main_start, mirrorSchemePort, initLogger. simpl.
  rewrite str_eqb_nil, bool_decide_eq_false_2 by done. simpl.
  destruct (mirrorHTTPS flags); simpl.
  - destruct (Z.eqb_spec (mirrorPort flags) 80) as [Hp|Hp]; simpl.
    + split; [done|]. split; [|split; [done|by destruct (verbose flags)]].
      split; [done|]. intros _. lia.
    + split; [done|]. split; [|split; [done|by destruct (verbose flags)]].
      split; [done|]. by intros [_ ?].
  - split; [done|]. split; [|split; [done|by destruct (verbose flags)]].
    split; [done|]. by intros [? _].
Qed.

Lemma forallb_eq_on {A} (f g : A → bool) (l : list A) :
  Forall (λ x, f x = g x) l → forallb f l = forallb g l.
Proof. induction 1 as [|x l Hx _ IH]; simpl; [done|]. by rewrite Hx, IH. Qed.

Lemma forallb_perm {A} (f : A → bool) (l1 l2 : list A) :
  l1 ≡ₚ l2 → forallb f l1 = forallb f l2.
Proof.
  induction 1 as [|x l1 l2 _ IH|x y l|l1 l2 l3 _ IH1 _ IH2]; simpl.
  - done.
  - by rewrite IH.
  - by destruct (f x), (f y).
  - by rewrite IH1.
Qed.

(** On a well-formed registry the loop returns exactly when no entry is one
    at which it panics; the entries it has measured before do not matter,
    since they are those of other fields. *)
Lemma loop_returns_iff S kvs st :
  registry_inv st → NoDup kvs.*1 →
  has_returned (reportHandler_loop S kvs st) =
  forallb (λ p, negb (blocked st S p)) kvs.
Proof.
  revert st. induction kvs as [|[k0 vv0] rest IH]; intros st Hinv Hnd; simpl; [done|].
  rewrite fmap_cons in Hnd. apply NoDup_cons in Hnd as [Hk0 Hnd]. simpl in Hk0.
  assert (Hrest : Forall (λ p, p.1 ≠ k0) rest).
  { apply Forall_forall. intros [k' vv'] Hin' Heq. simpl in Heq. subst k'.
    apply Hk0. apply list_elem_of_fmap. by exists (k0, vv'). }
  assert (Hnext : ∀ st2, registry_inv st2 →
            (∀ k, k ≠ k0 → gaugeMap st2 !! k = gaugeMap st !! k) →
            has_returned (reportHandler_loop S rest st2) =
            forallb (λ p, negb (blocked st S p)) rest).
  { intros st2 Hinv2 Hsame. rewrite (IH st2 Hinv2 Hnd). apply forallb_eq_on.
    eapply Forall_impl; [exact Hrest|]. intros p Hp. simpl. unfold blocked.
    by rewrite (Hsame _ Hp). }
  unfold blocked at 1. unfold passed_over. cbn [fst snd].
  destruct (slices_Contains ignoredKeys (strings_ToUpper unicode_ToUpper k0)) eqn:Hign0.
  { simpl. by apply Hnext. }
  destruct vv0 as [|v0 vv0']; [done|].
  destruct (strconv_ParseFloat v0) as [f0|] eqn:Hf0.
  2:{ rewrite bool_decide_eq_true_2 by done. simpl. by apply Hnext. }
  rewrite (bool_decide_eq_false_2 (Some f0 = None)) by done.
  rewrite (bool_decide_eq_false_2 (v0 :: vv0' = [])) by done.
  cbn [orb negb andb]. rewrite measure_cases.
  pose proof (getGauge_inv st k0 Hinv) as Hinv1.
  assert (Hset : ∀ g st1, registry_inv st1 → gaugeMap st1 !! k0 = Some g →
            (∀ k, k ≠ k0 → gaugeMap st1 !! k = gaugeMap st !! k) →
            has_returned
              match WithLabelValues_Set g S f0 st1 with
              | Returned _ st2 => reportHandler_loop S rest st2
              | Panicked msg st2 => Panicked msg st2
              end =
            utf8_ValidString S && forallb (λ p, negb (blocked st S p)) rest).
  { intros g st1 Hi1 Hg Hsame.
    pose proof (Set_inv st1 g S f0 Hi1) as Hinv2.
    pose proof (Set_gaugeMap st1 g S f0) as [Hgm _].
    pose proof (Set_cases st1 g S f0) as Hc.
    destruct (WithLabelValues_Set g S f0 st1) as [[] st2|msg st2]; simpl in *.
    - destruct Hc as [-> _]. simpl. apply Hnext; [done|].
      intros k Hk. rewrite Hgm. by apply Hsame.
    - destruct Hc as [_ [Hnone| ->]]; [|done].
      destruct (inv_live _ Hi1 _ _ Hg) as (vec & Hvec & _). congruence. }
  destruct (gaugeMap st !! k0) as [g0|] eqn:Hg0.
  - rewrite (getGauge_present _ _ _ Hg0). rewrite bool_decide_eq_false_2 by done.
    rewrite andb_false_l, orb_false_r, negb_involutive. by apply Hset.
  - rewrite bool_decide_eq_true_2 by done. rewrite andb_true_l.
    destruct (getGauge_absent _ _ Hg0)
      as [(Hbad & msg & Heq)|[(_ & [g' Hreg] & _)|(Hval & _ & Heq)]].
    + rewrite Heq, Hbad. simpl. by rewrite orb_true_r.
    + destruct (inv_sole_creator _ Hinv _ _ Hreg) as (F & HF%metric_name_inj & HgF).
      subst F. congruence.
    + rewrite Heq in Hinv1 |- *. rewrite Hval. simpl in Hinv1.
      cbn [negb]. rewrite orb_false_r, negb_involutive. apply Hset; [done| |].
      * simpl. by rewrite lookup_insert_eq.
      * intros k Hk. simpl. by rewrite lookup_insert_ne.
Qed.

(** What a loop that returned has left, read off the values and not off the
    order of the entries: the fields are those there were and those that are
    measured, and a shown value is the measured one for the station of the
    report and a measured field, and the former one in every other case. *)
Lemma loop_shown S kvs (vals : Values) st st' :
  registry_inv st → kvs ≡ₚ map_to_list vals →
  (∀ k l, vals !! k = Some l → l ≠ []) →
  reportHandler_loop S kvs st = Returned tt st' →
  ∀ k,
    (is_Some (gaugeMap st' !! k) ↔
     is_Some (gaugeMap st !! k) ∨ is_Some (measured_value vals k)) ∧
    ∀ S', gauge_value st' k S' =
          match (if decide (S' = S) then measured_value vals k else None) with
          | Some f => Some f
          | None => gauge_value st k S'
          end.
Proof.
  intros Hinv Hperm Hne Hloop k.
  assert (Hnd : NoDup kvs.*1).
  { rewrite Hperm. apply NoDup_fst_map_to_list. }
  assert (Hin : ∀ k' vv, (k', vv) ∈ kvs ↔ vals !! k' = Some vv).
  { intros k' vv. rewrite Hperm. apply elem_of_map_to_list. }
  pose proof (loop_inv S kvs st Hinv) as Hinv'. rewrite Hloop in Hinv'. simpl in Hinv'.
  assert (Hmeasured : ∀ f, measured_value vals k = Some f → gauge_value st' k S = Some f).
  { intros f Hm. destruct (measured_value_entry _ _ _ Hm) as (v0 & vv & Hk & Hf & Hpass).
    destruct (loop_measured S kvs st st' Hinv Hnd Hloop k (v0 :: vv))
      as (v0' & f' & Hhead & Hf' & Hgv); [by apply Hin|done|].
    simpl in Hhead. injection Hhead as <-. congruence. }
  assert (Hunmeasured : measured_value vals k = None → untouched k st st').
  { intros Hm.
    assert (Hpass : Forall (λ p, p.1 = k → passed_over p = true) kvs).
    { apply Forall_forall. intros [k' vv] Hkv Hk'. simpl in Hk'. subst k'.
      apply Hin in Hkv. rewrite (measured_passed_over _ _ _ Hkv (Hne _ _ Hkv)).
      by apply bool_decide_eq_true. }
    rewrite (loop_filter S k kvs st Hpass) in Hloop.
    pose proof (loop_untouched S k (filter (λ p, p.1 ≠ k) kvs) st Hinv) as Hun.
    rewrite Hloop in Hun. simpl in Hun. apply Hun.
    apply Forall_forall. by intros p [Hp _]%list_elem_of_filter. }
  split.
  - split.
    + intros Hk'. destruct (loop_domain S kvs st k) as [?|(vv & Hkv & Hpass)].
      { by rewrite Hloop. }
      { by left. }
      right. apply Hin in Hkv.
      rewrite (measured_passed_over _ _ _ Hkv (Hne _ _ Hkv)) in Hpass.
      apply bool_decide_eq_false in Hpass.
      by destruct (measured_value vals k); [eexists|].
    + intros [[g Hg]|[f Hm]].
      * pose proof (loop_mono S kvs st k g Hg) as Hm. rewrite Hloop in Hm. simpl in Hm.
        by eexists.
      * specialize (Hmeasured _ Hm). unfold gauge_value in Hmeasured.
        by destruct (gaugeMap st' !! k); [eexists|].
  - intros S'. destruct (decide (S' = S)) as [->|HS].
    + destruct (measured_value vals k) as [f|] eqn:Hm; [by apply Hmeasured|].
      by apply untouched_gauge_value, Hunmeasured.
    + pose proof (loop_station_step S kvs st) as [Hold Hnew].
      rewrite Hloop in Hold, Hnew. simpl in Hold, Hnew.
      unfold gauge_value. destruct (gaugeMap st !! k) as [g|] eqn:Hk; simpl.
      * pose proof (loop_mono S kvs st k g Hk) as Hk'.
        rewrite Hloop in Hk'. simpl in Hk'. rewrite Hk'. simpl.
        destruct (inv_live _ Hinv _ _ Hk) as (vec & Hvec & _).
        destruct (Hold _ _ Hvec) as (vec' & Hvec' & _ & _ & _ & Hm).
        rewrite Hvec, Hvec'. simpl. by apply Hm.
      * destruct (gaugeMap st' !! k) as [g|] eqn:Hk'; [|done]. simpl.
        assert (heap st !! g = None) as Hfresh.
        { eapply (loop_new_handle S kvs st k g Hk). by rewrite Hloop. }
        destruct (inv_live _ Hinv' _ _ Hk') as (vec' & Hvec' & _).
        rewrite Hvec'. simpl. by apply (Hnew _ _ Hfresh Hvec').
Qed.

(** X16.  On a request without a standard query and a well-formed registry,
    the handler does what the handler of the first version does, in
    whatever order each of the two [range] loops visits the fields: the
    first version's loop in the order [range_order], the current one in any
    order [kvs].  Both record the status 204; they return or panic together;
    and when both return they leave the same fields in [gaugeMap.m] and the
    same shown value for every field and station.  Only the current handler
    starts a goroutine. *)
Theorem old_handler_agrees_without_query (r : Request) (st : State)
    (kvs : list (string * list string)) :
  RawQuery (req_URL r) = "" →
  registry_inv st →
  kvs ≡ₚ range_order (decodeReport r).1.1 →
  let old := reportHandler_old newResponse r st in
  let new_run :=
    reportHandler_loop (decodeReport r).1.2 kvs
      (log_received (decodeReport r).1.2 r (decodeReport r).2 st) in
  h_result (reportHandler newResponse r st) =
    reportHandler_loop (decodeReport r).1.2 (range_order (decodeReport r).1.1)
      (log_received (decodeReport r).1.2 r (decodeReport r).2 st) ∧
  h_response old = h_response (reportHandler newResponse r st) ∧
  h_spawned old = [] ∧
  has_returned (h_result old) = has_returned new_run ∧
  ∀ st1 st2, h_result old = Returned tt st1 → new_run = Returned tt st2 →
    ∀ k, (is_Some (gaugeMap st1 !! k) ↔ is_Some (gaugeMap st2 !! k)) ∧
         ∀ S, gauge_value st1 k S = gauge_value st2 k S.
Proof.
  intros Hq Hinv Hperm old new_run.
  pose proof (decodeReport_nonempty r) as Hne.
  pose proof (reportHandler_result r st) as Hres.
  assert (Hhead : h_response old = h_response (reportHandler newResponse r st) ∧
                  h_spawned old = []).
  { unfold old, reportHandler_old, reportHandler.
    destruct (decodeReport r) as [[? ?] ?].
    destruct (strings_Cut (Path (req_URL r)) "&") as [[urlPath q] found].
    by destruct (url_ParseQuery q) as [vals err]. }
  assert (Hold : ∃ st0, registry_inv st0 ∧ gaugeMap st0 = gaugeMap st ∧
                  (∀ k S, gauge_value st0 k S = gauge_value st k S) ∧
                  h_result old =
                    reportHandler_loop (decodeReport r).1.2
                      (range_order (decodeReport r).1.1) st0).
  { unfold old, reportHandler_old, decodeReport. rewrite Hq. simpl.
    destruct (strings_Cut (Path (req_URL r)) "&") as [[urlPath q] found].
    destruct (url_ParseQuery q) as [vals err]. simpl.
    eexists. split; [|split; [|split; [|reflexivity]]].
    - destruct Hinv. by destruct err.
    - by destruct err.
    - intros k S. by destruct err. }
  destruct Hold as (st0 & Hinv0 & Hgm0 & Hgv0 & Hold).
  subst new_run. destruct (decodeReport r) as [[vals station] err]. simpl in *.
  set (stn := log_received station r err st).
  assert (Hinvn : registry_inv stn) by by apply log_received_inv.
  assert (Hgmn : gaugeMap stn = gaugeMap st) by apply log_received_gaugeMap.
  assert (Hgvn : ∀ k S, gauge_value stn k S = gauge_value st k S).
  { intros k S.
    apply (untouched_gauge_value k st stn S (log_received_untouched k station r err st)). }
  assert (Hndo : NoDup (range_order vals).*1).
  { rewrite range_order_perm. apply NoDup_fst_map_to_list. }
  assert (Hndn : NoDup kvs.*1) by by rewrite Hperm.
  split; [by destruct Hres|]. split; [by destruct Hhead|]. split; [by destruct Hhead|].
  rewrite Hold. split.
  - rewrite (loop_returns_iff station _ st0 Hinv0 Hndo).
    rewrite (loop_returns_iff station _ stn Hinvn Hndn).
    rewrite (forallb_perm _ _ _ Hperm). apply forallb_eq_on, Forall_forall.
    intros p _. unfold blocked. by rewrite Hgm0, Hgmn.
  - intros st1 st2 H1 H2 k.
    destruct (loop_shown station (range_order vals) vals st0 st1 Hinv0
                (range_order_perm vals) Hne H1 k) as [Hf1 Hv1].
    destruct (loop_shown station kvs vals stn st2 Hinvn
                (transitivity Hperm (range_order_perm vals)) Hne H2 k) as [Hf2 Hv2].
    split.
    + rewrite Hf1, Hf2. by rewrite Hgm0, Hgmn.
    + intros S. rewrite Hv1, Hv2. by rewrite Hgv0, Hgvn.
Qed.

(** X17.  The handler of the first version never reads the standard query:
    on a request whose path holds no ['&'] it returns with the registry as
    it was, whatever the query holds, so it takes nothing from a report in
    the standard form. *)
Theorem old_handler_ignores_standard_query (r : Request) (st : State) :
  str_no "&" (Path (req_URL r)) = true →
  has_returned (h_result (reportHandler_old newResponse r st)) = true ∧
  same_registry st (result_state (h_result (reportHandler_old newResponse r st))).
Proof.
  intros Hno. unfold reportHandler_old. rewrite (Cut_byte_none _ _ Hno). simpl.
  assert (range_order (∅ : Values) = []) as ->.
  { apply Permutation_nil_r. rewrite range_order_perm. by rewrite map_to_list_empty. }
  simpl. done.
Qed.

End StartTheorems.

(* ===================================================================== *)
(** * The further theorems at work on concrete reports *)
(* ===================================================================== *)

Section MoreExamples.
Local Existing Instance examplePlatform.

Lemma report_values_witness :
  registry_inv initState ∧
  has_returned (h_result (reportHandler newResponse firstReport initState)) = true ∧
  gauge_value (result_state (h_result (reportHandler newResponse firstReport initState)))
    "tempf" "TEST_STATION" = Some (725%Z, 1%nat).
Proof.
  assert (Hr : has_returned (h_result (reportHandler newResponse firstReport initState)) = true)
    by (vm_compute; reflexivity).
  split; [apply registry_inv_init|]. split; [exact Hr|].
  destruct (h_result (reportHandler newResponse firstReport initState))
    as [[] st'|msg st'] eqn:Hret; [|discriminate Hr].
  cbn [result_state].
  rewrite (report_values firstReport initState st' "tempf" "TEST_STATION"
             registry_inv_init Hret).
  vm_compute; reflexivity.
Defined.

Lemma report_adds_only_measured_fields_witness :
  registry_inv initState ∧
  ∀ k, is_Some (gaugeMap (result_state
                  (h_result (reportHandler newResponse mixedRequest initState))) !! k) →
       is_Some (gaugeMap initState !! k) ∨
       is_Some (measured_value (decodeReport mixedRequest).1.1 k).
Proof.
  split; [apply registry_inv_init|].
  exact (proj1 (report_adds_only_measured_fields mixedRequest initState registry_inv_init)).
Defined.

Lemma later_report_overwrites_witness :
  registry_inv initState ∧
  (decodeReport secondReport).1.2 = (decodeReport firstReport).1.2 ∧
  gauge_value
    (run_ops [OpReport firstReport; OpReport secondReport] initState)
    "tempf" "TEST_STATION" = Some (731%Z, 1%nat) ∧
  gauge_value
    (run_ops [OpReport firstReport; OpReport secondReport] initState)
    "humidity" "TEST_STATION" = Some (45%Z, 0%nat).
Proof.
  assert (Hs : (decodeReport secondReport).1.2 = (decodeReport firstReport).1.2)
    by (vm_compute; reflexivity).
  split; [apply registry_inv_init|]. split; [exact Hs|].
  unfold run_ops. cbn [foldl run_op].
  assert (Hr1 : has_returned (h_result (reportHandler newResponse firstReport initState))
                = true) by (vm_compute; reflexivity).
  assert (Hr2 : has_returned (h_result (reportHandler newResponse secondReport
                  (result_state (h_result (reportHandler newResponse firstReport initState)))))
                = true) by (vm_compute; reflexivity).
  destruct (h_result (reportHandler newResponse firstReport initState))
    as [[] st1|msg st1] eqn:H1; [|discriminate Hr1].
  cbn [result_state] in *.
  destruct (h_result (reportHandler newResponse secondReport st1))
    as [[] st2|msg st2] eqn:H2; [|discriminate Hr2].
  cbn [result_state].
  change "TEST_STATION" with (decodeReport firstReport).1.2.
  rewrite !(later_report_overwrites firstReport secondReport initState st1 st2 _
              registry_inv_init H1 H2 Hs).
  split; vm_compute; reflexivity.
Defined.

Lemma firstReport_measured k :
  is_Some (measured_value (decodeReport firstReport).1.1 k) →
  k = "tempf" ∨ k = "humidity".
Proof.
  replace (decodeReport firstReport).1.1
    with (<["tempf" := ["72.5"]]> (<["humidity" := ["45"]]> (∅ : Values)))
    by (vm_compute; reflexivity).
  unfold measured_value. destruct (decide (k = "tempf")) as [->|H1]; [by left|].
  destruct (decide (k = "humidity")) as [->|H2]; [by right|].
  rewrite !lookup_insert_ne, lookup_empty by done. by intros [? ?].
Qed.

Lemma report_returns_when_names_valid_witness :
  registry_inv initState ∧
  utf8_ValidString (decodeReport firstReport).1.2 = true ∧
  (∀ k, is_Some (measured_value (decodeReport firstReport).1.1 k) →
        IsValidMetricName ("awp_" +:+ k) = true) ∧
  has_returned (h_result (reportHandler newResponse firstReport initState)) = true.
Proof.
  assert (Hnames : ∀ k, is_Some (measured_value (decodeReport firstReport).1.1 k) →
                        IsValidMetricName ("awp_" +:+ k) = true).
  { intros k [-> | ->]%firstReport_measured; reflexivity. }
  split; [apply registry_inv_init|]. split; [reflexivity|]. split; [exact Hnames|].
  exact (report_returns_when_names_valid firstReport initState registry_inv_init
           eq_refl Hnames).
Defined.

Lemma report_with_invalid_station_sets_nothing_witness :
  utf8_ValidString (decodeReport badStationRequest).1.2 = false ∧
  ∀ g vec', heap initState !! g = None →
    heap (result_state (h_result (reportHandler newResponse badStationRequest initState)))
      !! g = Some vec' →
    gv_metrics vec' = ∅.
Proof.
  split; [reflexivity|].
  exact (proj1 (proj2 (report_with_invalid_station_sets_nothing badStationRequest
                         initState eq_refl))).
Defined.

Lemma getGauge_again_witness :
  ∃ g st', getGauge "tempf" initState = Returned g st' ∧
           getGauge "tempf" st' = Returned g st'.
Proof.
  assert (Hr : has_returned (getGauge "tempf" initState) = true)
    by (vm_compute; reflexivity).
  destruct (getGauge "tempf" initState) as [g st'|msg st'] eqn:Hg; [|discriminate Hr].
  exists g, st'. split; [reflexivity|].
  exact (proj1 (getGauge_again "tempf" initState g st' Hg)).
Defined.

Lemma reachable_collectors_described_witness :
  gaugeMap (run_ops [OpReport firstReport; OpReport secondReport] initState) !! "tempf" =
    Some 1%positive ∧
  ∃ metrics,
    heap (run_ops [OpReport firstReport; OpReport secondReport] initState) !! 1%positive =
      Some (mkGaugeVec "awp_tempf" "AWP sensor value for tempf" ["station"] metrics) ∧
    registered (run_ops [OpReport firstReport; OpReport secondReport] initState)
      !! "awp_tempf" = Some 1%positive.
Proof.
  assert (Hk : gaugeMap (run_ops [OpReport firstReport; OpReport secondReport] initState)
                 !! "tempf" = Some 1%positive) by (vm_compute; reflexivity).
  split; [exact Hk|].
  exact (reachable_collectors_described [OpReport firstReport; OpReport secondReport]
           "tempf" 1%positive Hk).
Defined.

Lemma station_is_a_segment_witness :
  RawQuery (req_URL ampersandRequest) = "" ∧
  (decodeReport ampersandRequest).1.2 = "TEST_STATION" ∧
  str_no "&" (decodeReport ampersandRequest).1.2 = true.
Proof.
  split; [reflexivity|]. split; [vm_compute; reflexivity|].
  exact (proj2 (proj2 (station_is_a_segment ampersandRequest)) eq_refl).
Defined.

Lemma standard_query_of_pairs_witness :
  [("tempf", "72.5"); ("wind dir", "N&E"); ("tempf", "73")] ≠ [] ∧
  join_amp (enc_pair <$> [("tempf", "72.5"); ("wind dir", "N&E"); ("tempf", "73")]) =
    "tempf=72.5&wind+dir=N%26E&tempf=73" ∧
  (decodeReport (mkRequest (mkURL "" "" "/data/report/TEST_STATION" false
                              "tempf=72.5&wind+dir=N%26E&tempf=73") "192.0.2.7:51234")).1.1
    !! "tempf" = Some ["72.5"; "73"].
Proof.
  split; [discriminate|]. split; [vm_compute; reflexivity|].
  exact (proj1 (proj2 (proj2
    (standard_query_of_pairs [("tempf", "72.5"); ("wind dir", "N&E"); ("tempf", "73")]
       "/data/report/TEST_STATION" "192.0.2.7:51234" "tempf" ltac:(discriminate))))).
Defined.

Lemma semicolon_segment_dropped_witness :
  Forall (λ s, str_no "&" s = true) (["tempf=72.5"] ++ "a;b=1" :: ["humidity=45"]) ∧
  strings_Contains "a;b=1" ";" = true ∧
  decodeReport (mkRequest (mkURL "" "" "/data/report/TEST_STATION" false
                             "tempf=72.5&a;b=1&humidity=45") "192.0.2.7:51234") =
    ((url_ParseQuery "tempf=72.5&humidity=45").1, "TEST_STATION", Some InvalidSemicolon).
Proof.
  assert (Hall : Forall (λ s, str_no "&" s = true)
                   (["tempf=72.5"] ++ "a;b=1" :: ["humidity=45"])).
  { repeat constructor. }
  split; [exact Hall|]. split; [reflexivity|].
  exact (semicolon_segment_dropped ["tempf=72.5"] ["humidity=45"] "a;b=1"
           "/data/report/TEST_STATION" "192.0.2.7:51234" Hall eq_refl).
Defined.

Lemma scenarioVals_nonempty k l : scenarioVals !! k = Some l → l ≠ [].
Proof.
  intros Hk.
  replace scenarioVals with (url_ParseQuery "tempf=72.5&humidity=45&PASSKEY=abc").1 in Hk
    by (vm_compute; reflexivity).
  by eapply ParseQuery_nonempty.
Qed.

Lemma encoded_report_mirrored_verbatim_witness :
  (∀ k l, scenarioVals !! k = Some l → l ≠ []) ∧
  str_no "&" "/data/report/TEST_STATION" = true ∧
  url_Values_Encode scenarioVals = "PASSKEY=abc&humidity=45&tempf=72.5" ∧
  decodeReport (mkRequest (mkURL "" "" "/data/report/TEST_STATION" false
                             (url_Values_Encode scenarioVals)) "192.0.2.7:51234") =
    (scenarioVals, path_Base "/data/report/TEST_STATION", None).
Proof.
  split; [exact scenarioVals_nonempty|]. split; [reflexivity|].
  split; [vm_compute; reflexivity|].
  exact (proj1 (encoded_report_mirrored_verbatim scenarioFlags scenarioVals
                  "/data/report/TEST_STATION" "192.0.2.7:51234"
                  scenarioVals_nonempty eq_refl)).
Defined.

Lemma mirror_output_without_verbose_witness :
  verbose scenarioFlags = false ∧
  slog_output (initLogger scenarioFlags)
    (m_logged (mirrorRequest scenarioFlags sinkOK (req_URL scenarioRequest) scenarioVals
                 "TEST_STATION")) = [] ∧
  slog_output (initLogger scenarioFlags)
    (m_logged (mirrorRequest scenarioFlags sinkDown (req_URL scenarioRequest) scenarioVals
                 "TEST_STATION")) ≠ [].
Proof.
  split; [reflexivity|]. split.
  - apply (proj1 (mirror_output_without_verbose scenarioFlags sinkOK
                    (req_URL scenarioRequest) scenarioVals "TEST_STATION" eq_refl)).
    right. split; [reflexivity|]. exists 200%Z. split; [reflexivity|]. reflexivity.
  - vm_compute. discriminate.
Defined.

Lemma startup_log_and_mirror_port_witness :
  mirrorHost scenarioFlags ≠ "" ∧
  s_logged (main_start scenarioFlags) =
    [mkRecord LevelInfo "Mirroring enabled"
       [("host", StringValue "h"); ("port", IntValue 8000);
        ("path", StringValue "/data/report"); ("scheme", StringValue "http")]].
Proof.
  split; [discriminate|].
  exact (proj1 (startup_log_and_mirror_port scenarioFlags ltac:(discriminate))).
Defined.

Lemma old_handler_agrees_without_query_witness :
  RawQuery (req_URL ampersandRequest) = "" ∧
  registry_inv initState ∧
  reverse (range_order (decodeReport ampersandRequest).1.1) ≡ₚ
    range_order (decodeReport ampersandRequest).1.1 ∧
  range_order (decodeReport ampersandRequest).1.1 ≠
    reverse (range_order (decodeReport ampersandRequest).1.1) ∧
  has_returned (h_result (reportHandler_old newResponse ampersandRequest initState)) =
    has_returned
      (reportHandler_loop (decodeReport ampersandRequest).1.2
         (reverse (range_order (decodeReport ampersandRequest).1.1))
         (log_received (decodeReport ampersandRequest).1.2 ampersandRequest
            (decodeReport ampersandRequest).2 initState)) ∧
  has_returned (h_result (reportHandler_old newResponse ampersandRequest initState)) = true.
Proof.
  split; [reflexivity|]. split; [apply registry_inv_init|].
  split; [apply reverse_Permutation|]. split; [vm_compute; discriminate|]. split.
  - exact (proj1 (proj2 (proj2 (proj2
             (old_handler_agrees_without_query ampersandRequest initState
                (reverse (range_order (decodeReport ampersandRequest).1.1))
                eq_refl registry_inv_init (reverse_Permutation _)))))).
  - vm_compute; reflexivity.
Defined.

Lemma old_handler_ignores_standard_query_witness :
  str_no "&" (Path (req_URL firstReport)) = true ∧
  same_registry initState
    (result_state (h_result (reportHandler_old newResponse firstReport initState))) ∧
  dom (gaugeMap (result_state
         (h_result (reportHandler newResponse firstReport initState)))) =
    {["tempf"; "humidity"]}.
Proof.
  split; [reflexivity|]. split.
  - exact (proj2 (old_handler_ignores_standard_query firstReport initState eq_refl)).
  - vm_compute; reflexivity.
Defined.

End MoreExamples.
